(** * Bull-Arc: the burner-wallet adapter and the rate-limited fetch helpers

  A shallow embedding of
  - the [BurnerWalletAdapter] class (context/BurnerWalletAdapter),
  - [createBurnerWallet] of components/BurnerWallet.tsx,
  - [canMakeRequest], [waitForRateLimit] and [fetchWithRetry] of
    services/portfolioService.ts,
  - [checkRateLimit], [getCachedData], [setCachedData] and [fetchWithCORS]
    of the CoinGecko service,
  followed by the properties proved about them. *)

From Stdlib Require Import ZArith List Ascii String Bool Lia.
From stdpp Require Import base option list gmap strings pretty fin_maps sorting.

Open Scope Z_scope.

(** ** JavaScript values used by the code *)

Module Js.

(** A JavaScript number as the code uses it: a count of milliseconds, or
    [NaN] (what arithmetic on [undefined] or on an invalid date yields). *)
Inductive jsnum := Num (z : Z) | NaN.

Definition sub (a b : jsnum) : jsnum :=
  match a, b with
  | Num x, Num y => Num (x - y)
  | _, _ => NaN
  end.

(** Comparisons with [NaN] are false. *)
Definition gt (a b : jsnum) : bool :=
  match a, b with
  | Num x, Num y => y <? x
  | _, _ => false
  end.

Definition le (a b : jsnum) : bool :=
  match a, b with
  | Num x, Num y => x <=? y
  | _, _ => false
  end.

(** [Math.max]: [NaN] as soon as one argument is. *)
Definition max (a b : jsnum) : jsnum :=
  match a, b with
  | Num x, Num y => Num (Z.max x y)
  | _, _ => NaN
  end.

(** The delay [setTimeout] really uses: the argument converted to a signed
    32-bit integer ([NaN] gives 0), negative values raised to 0. *)
Definition to_int32 (z : Z) : Z := (z + 2 ^ 31) mod 2 ^ 32 - 2 ^ 31.

Definition timer_delay (d : jsnum) : Z :=
  match d with
  | Num z => Z.max 0 (to_int32 z)
  | NaN => 0
  end.

(** Completion of a call: a value, or a thrown error (a rejected promise). *)
Inductive outcome (E A : Type) : Type :=
| Ok (a : A)
| Throw (e : E).
Arguments Ok {E A} a.
Arguments Throw {E A} e.

(** JSON documents, as [JSON.parse] returns them. *)
#[warnings="-register-all"]
Inductive json :=
| JNull
| JBool (b : bool)
| JNum (n : Z)
| JStr (s : string)
| JArr (l : list json)
| JObj (fields : list (string * json)).

(** [if (v)] on a parsed value. *)
Definition truthy (j : json) : bool :=
  match j with
  | JNull => false
  | JBool b => b
  | JNum n => negb (n =? 0)
  | JStr s => negb (String.eqb s "")
  | JArr _ | JObj _ => true
  end.

(** Reading member [name] of an object; a later binding of the same name
    wins, as in [JSON.parse]. *)
Fixpoint get_field (name : string) (fs : list (string * json)) : option json :=
  match fs with
  | [] => None
  | (k, v) :: rest =>
      match get_field name rest with
      | Some v' => Some v'
      | None => if String.eqb k name then Some v else None
      end
  end.

(** [v.name] for a parsed value [v] that is not [null]; [None] is
    [undefined]. *)
Definition prop (name : string) (j : json) : option json :=
  match j with
  | JObj fs => get_field name fs
  | _ => None
  end.

(** What one [localStorage] slot holds: the text [JSON.stringify j] of a
    document [j], or a text that is not JSON at all (the empty string
    included). *)
Inductive item :=
| Text (s : string)
| Doc (j : json).

(** [if (walletData)] on a stored string: only the empty string is falsy. *)
Definition nonempty (it : item) : bool :=
  match it with
  | Text s => negb (String.eqb s "")
  | Doc _ => true
  end.

(** [JSON.parse]; [None] when it throws a SyntaxError. *)
Definition JSON_parse (it : item) : option json :=
  match it with
  | Text _ => None
  | Doc j => Some j
  end.

(** [msg.includes(pat)]. *)
Definition includes (pat msg : string) : bool :=
  match String.index 0 pat msg with
  | Some _ => true
  | None => false
  end.

(** [encodeURIComponent(s)], the string being read as the UTF-8 bytes of
    the JavaScript string: the letters, the digits and [- _ . ! ~ * ' ( )]
    stay, every other byte becomes [%XX] in upper-case hexadecimal. (A lone
    surrogate, on which the function throws, has no UTF-8 bytes.) *)
Definition unreserved (c : ascii) : bool :=
  let n := Z.of_nat (nat_of_ascii c) in
  ((65 <=? n) && (n <=? 90)) || ((97 <=? n) && (n <=? 122))
  || ((48 <=? n) && (n <=? 57)) || includes (String c EmptyString) "-_.!~*'()".

Definition hexDigit (n : Z) : ascii :=
  ascii_of_nat (Z.to_nat (if n <? 10 then 48 + n else 55 + n)).

Fixpoint encodeURIComponent (s : string) : string :=
  match s with
  | EmptyString => EmptyString
  | String c rest =>
      if unreserved c then String c (encodeURIComponent rest)
      else
        let n := Z.of_nat (nat_of_ascii c) in
        String "%" (String (hexDigit (n / 16))
                      (String (hexDigit (n mod 16)) (encodeURIComponent rest)))
  end.

End Js.
Export Js.

(** ** The libraries the wallet code calls *)

(** [@solana/web3.js] and [Date], by what the adapter uses of them. *)
Class Platform := {
  Keypair : Type;
  Transaction : Type;
  (** [Keypair.fromSecretKey(new Uint8Array(v))]; [None] when it throws. *)
  fromSecretKey : option json -> option Keypair;
  (** [keypair.publicKey.toBase58()] *)
  publicKey58 : Keypair -> string;
  (** [Array.from(keypair.secretKey)] *)
  secretKeyBytes : Keypair -> list Z;
  (** [transaction.partialSign(keypair)]: the signed transaction, or the
      message of the error it throws. *)
  partialSign : Transaction -> Keypair -> outcome string Transaction;
  (** [new Date(v).getTime()] *)
  getTime : option json -> jsnum;
  (** [new Date(t).toISOString()] *)
  toISOString : Z -> string
}.

(** ** BurnerWalletAdapter *)

Module BurnerWallet.
Section Adapter.
Context `{P : Platform}.

Inductive error :=
| WalletConnectionError (msg : string)
| WalletDisconnectionError (msg : string)
| WalletNotConnectedError (msg : string)
| SyntaxError
| TypeError.

Inductive event :=
| EvConnect (publicKey : string)
| EvDisconnect.

(** The private fields. [_disconnectTimer] holds the pending timer, by the
    time at which it is due: the adapter cancels the old timer before it
    arms a new one and forgets the handle when the timer has run, so the
    handle is set exactly while one timer is pending. *)
Record adapter := {
  _keypair : option Keypair;
  _connecting : bool;
  _connected : bool;
  _disconnectTimer : option Z
}.

Record world := {
  now : Z;                              (* Date.now() *)
  localStorage : gmap string item;
  self : adapter;
  emitted : list event                  (* this.emit(...) so far *)
}.

Definition EXPIRY_TIME : Z := 24 * 60 * 60 * 1000.

Definition storageKey : string := "burnerWallet".

Definition with_self (w : world) (a : adapter) : world :=
  {| now := now w; localStorage := localStorage w; self := a;
     emitted := emitted w |}.

Definition clearWallet (w : world) : world :=
  {| now := now w;
     localStorage := delete storageKey (localStorage w);
     self := {| _keypair := None;
                _connecting := _connecting (self w);
                _connected := false;
                _disconnectTimer := None |};
     emitted := emitted w ++ [EvDisconnect] |}.

Definition setupDisconnectTimer (creationTime : jsnum) (w : world) : world :=
  let timeLeft := Js.sub (Num EXPIRY_TIME) (Js.sub (Num (now w)) creationTime) in
  if Js.le timeLeft (Num 0) then clearWallet w
  else
    with_self w {| _keypair := _keypair (self w);
                   _connecting := _connecting (self w);
                   _connected := _connected (self w);
                   _disconnectTimer := Some (now w + timer_delay timeLeft) |}.

(** [connect()]: the [finally] block resets [_connecting] on every path. *)
Definition connect (w : world) : world * outcome error unit :=
  let a := self w in
  if _connecting a || _connected a then
    (with_self w {| _keypair := _keypair a; _connecting := false;
                    _connected := _connected a;
                    _disconnectTimer := _disconnectTimer a |}, Ok tt)
  else
    match _keypair a with
    | None =>
        (with_self w {| _keypair := None; _connecting := false;
                        _connected := _connected a;
                        _disconnectTimer := _disconnectTimer a |},
         Throw (WalletConnectionError "No burner wallet found"))
    | Some kp =>
        ({| now := now w; localStorage := localStorage w;
            self := {| _keypair := Some kp; _connecting := false;
                       _connected := true;
                       _disconnectTimer := _disconnectTimer a |};
            emitted := emitted w ++ [EvConnect (publicKey58 kp)] |}, Ok tt)
    end.

(** [loadBurnerWallet()]: every exception of the [try] block ends in
    [clearWallet]. *)
Definition loadBurnerWallet (w : world) : world :=
  match localStorage w !! storageKey with
  | None => w
  | Some walletData =>
      if negb (nonempty walletData) then w
      else
        match JSON_parse walletData with
        | None => clearWallet w                 (* SyntaxError *)
        | Some JNull => clearWallet w           (* destructuring null *)
        | Some j =>
            let secretKey := prop "secretKey" j in
            let createdAt := prop "createdAt" j in
            let creationTime := getTime createdAt in
            if Js.gt (Js.sub (Num (now w)) creationTime) (Num EXPIRY_TIME)
            then clearWallet w
            else
              match fromSecretKey secretKey with
              | None => clearWallet w           (* bad key material *)
              | Some kp =>
                  let w1 :=
                    with_self w {| _keypair := Some kp;
                                   _connecting := _connecting (self w);
                                   _connected := _connected (self w);
                                   _disconnectTimer := _disconnectTimer (self w) |} in
                  let w2 := setupDisconnectTimer creationTime w1 in
                  if _connected (self w2) then fst (connect w2) else w2
              end
        end
  end.

(** [new BurnerWalletAdapter()] in a browser, at time [t] over storage [st]. *)
Definition construct (t : Z) (st : gmap string item) : world :=
  loadBurnerWallet
    {| now := t; localStorage := st;
       self := {| _keypair := None; _connecting := false;
                  _connected := false; _disconnectTimer := None |};
       emitted := [] |}.

Definition disconnect (w : world) : world * outcome error unit :=
  (clearWallet w, Ok tt).

(** [signTransaction]: whatever is thrown inside the [try] comes out as a
    [WalletNotConnectedError] carrying the message of the cause. *)
Definition signTransaction (a : adapter) (tx : Transaction)
  : outcome error Transaction :=
  match _connected a, _keypair a with
  | true, Some kp =>
      match partialSign tx kp with
      | Ok tx' => Ok tx'
      | Throw msg => Throw (WalletNotConnectedError msg)
      end
  | _, _ => Throw (WalletNotConnectedError "")
  end.

(** [Promise.all] over promises that are already settled: the values in
    order, or the reason of the first rejected one. *)
Fixpoint promise_all {E A : Type} (l : list (outcome E A)) : outcome E (list A) :=
  match l with
  | [] => Ok []
  | Throw e :: _ => Throw e
  | Ok a :: rest =>
      match promise_all rest with
      | Ok r => Ok (a :: r)
      | Throw e => Throw e
      end
  end.

Definition signAllTransactions (a : adapter) (txs : list Transaction)
  : outcome error (list Transaction) :=
  promise_all (map (signTransaction a) txs).

(** [getTimeRemaining()]: no [try] here, so a failing [JSON.parse] or a
    [null] document throws to the caller. Nothing is written. *)
Definition getTimeRemaining (w : world) : outcome error jsnum :=
  match localStorage w !! storageKey with
  | None => Ok (Num 0)
  | Some walletData =>
      if negb (nonempty walletData) then Ok (Num 0)
      else
        match JSON_parse walletData with
        | None => Throw SyntaxError
        | Some JNull => Throw TypeError
        | Some j =>
            let creationTime := getTime (prop "createdAt" j) in
            let timeLeft :=
              Js.sub (Num EXPIRY_TIME) (Js.sub (Num (now w)) creationTime) in
            Ok (Js.max (Num 0) timeLeft)
        end
  end.

(** *** components/BurnerWallet.tsx *)

(** The React state of the [BurnerWallet] component, the alerts it has shown
    and the wallet it has asked [useWallet] to select. *)
Record ui := {
  isCreating : bool;
  showModal : bool;
  showSuccessModal : bool;
  walletAddress : option string;
  alerts : list string;
  selected : option string
}.

(** The object literal [walletData]. *)
Definition walletData (keypair : Keypair) (username email : string) (t : Z) : json :=
  JObj [ ("publicKey", JStr (publicKey58 keypair));
         ("secretKey", JArr (map JNum (secretKeyBytes keypair)));
         ("username", JStr username);
         ("email", JStr email);
         ("createdAt", JStr (toISOString t)) ].

(** [createBurnerWallet(username, email)] run at time [t]; [generate] is
    what [Keypair.generate()] does this time. The promise it returns
    carries no value and is never rejected: the [catch] block swallows
    every error after an alert. *)
Definition createBurnerWallet (generate : outcome string Keypair)
    (username email : string) (t : Z) (st : gmap string item) (u : ui)
  : gmap string item * ui * outcome error unit :=
  match generate with
  | Ok keypair =>
      (<[storageKey := Doc (walletData keypair username email t)]> st,
       {| isCreating := false;
          showModal := false;
          showSuccessModal := true;
          walletAddress := Some (publicKey58 keypair);
          alerts := alerts u;
          selected := Some "Burner" |},
       Ok tt)
  | Throw _ =>
      (st,
       {| isCreating := false;
          showModal := showModal u;
          showSuccessModal := showSuccessModal u;
          walletAddress := walletAddress u;
          alerts := alerts u ++ ["Failed to create wallet. Please try again."];
          selected := selected u |},
       Ok tt)
  end.

(** *** The adapter in its environment *)

(** What can happen to an adapter once it is constructed: time passes, the
    pending timer runs its callback (at or after its due time), the document
    becomes visible again, the wallet provider calls [connect] or
    [disconnect], and scripts of the page write the storage
    ([createBurnerWallet] is one of them). *)
Inductive action :=
| Tick (dt : Z)
| TimerFires
| BecomesVisible
| CallConnect
| CallDisconnect
| SetItem (k : string) (v : item)
| RemoveItem (k : string).

Definition elapse (dt : Z) (w : world) : world :=
  {| now := now w + dt; localStorage := localStorage w; self := self w;
     emitted := emitted w |}.

Definition setItem (k : string) (v : item) (w : world) : world :=
  {| now := now w; localStorage := <[k := v]> (localStorage w);
     self := self w; emitted := emitted w |}.

Definition removeItem (k : string) (w : world) : world :=
  {| now := now w; localStorage := delete k (localStorage w);
     self := self w; emitted := emitted w |}.

Definition step (w : world) (a : action) : option world :=
  match a with
  | Tick dt => if 0 <=? dt then Some (elapse dt w) else None
  | TimerFires =>
      match _disconnectTimer (self w) with
      | Some due => if due <=? now w then Some (clearWallet w) else None
      | None => None
      end
  | BecomesVisible => Some (loadBurnerWallet w)
  | CallConnect => Some (fst (connect w))
  | CallDisconnect => Some (fst (disconnect w))
  | SetItem k v => Some (setItem k v w)
  | RemoveItem k => Some (removeItem k w)
  end.

Fixpoint run (w : world) (l : list action) : option world :=
  match l with
  | [] => Some w
  | a :: rest =>
      match step w a with
      | Some w' => run w' rest
      | None => None
      end
  end.

Inductive reachable : world -> Prop :=
| reachable_construct t st : reachable (construct t st)
| reachable_step w a w' : reachable w -> step w a = Some w' -> reachable w'.

(** Creation time of the persisted record, when it has a readable one. *)
Definition createdAtOf (w : world) : option Z :=
  match localStorage w !! storageKey with
  | Some (Doc j) =>
      match getTime (prop "createdAt" j) with
      | Num c => Some c
      | NaN => None
      end
  | _ => None
  end.

(** The persisted wallet is past its 24 hours. *)
Definition expired (w : world) : Prop :=
  exists c, createdAtOf w = Some c /\ c + EXPIRY_TIME <= now w.

(** No wallet anywhere: nothing in memory, nothing persisted, no timer. *)
Definition purged (w : world) : Prop :=
  _keypair (self w) = None /\ _connected (self w) = false /\
  _disconnectTimer (self w) = None /\ localStorage w !! storageKey = None.

(** What the fields of every reachable adapter satisfy. *)
Definition consistent (w : world) : Prop :=
  _connecting (self w) = false /\
  (_connected (self w) = true -> is_Some (_keypair (self w))) /\
  (is_Some (_keypair (self w)) -> is_Some (_disconnectTimer (self w))).

(** No action of the list stores a wallet record. *)
Definition storesNoWallet (l : list action) : Prop :=
  Forall (fun a => forall v, a <> SetItem storageKey v) l.

(** The actions of a run are the adapter's own, or the passing of time: no
    script of the page writes the storage. *)
Definition undisturbed (l : list action) : Prop :=
  Forall (fun a => (forall k v, a <> SetItem k v) /\ (forall k, a <> RemoveItem k)) l.

(** A stored value that is not a usable wallet record. *)
Definition corrupt (it : item) : Prop :=
  match JSON_parse it with
  | None => True
  | Some JNull => True
  | Some j => fromSecretKey (prop "secretKey" j) = None
  end.

End Adapter.
End BurnerWallet.

(** ** services/portfolioService.ts: rate limiter and retry loop *)

Module Portfolio.

(** A thrown value after [err instanceof Error ? err : new Error(String(err))]. *)
Record jserror := { name : string; message : string }.

(** Module state, with a record of what a run did: the waits of the rate
    limiter, the backoff delays of the retry loop and the number of times
    the operation was invoked. *)
Record state := {
  clock : Z;                      (* Date.now() *)
  requestTimestamps : list Z;
  waits : list jsnum;
  backoffs : list Z;
  attempts : nat
}.

Definition REQUEST_WINDOW : Z := 60 * 1000.
Definition MAX_RETRIES : Z := 3.
Definition BASE_DELAY : Z := 2000.
Definition MAX_DELAY : Z := 10000.

(** The [while] loop of [canMakeRequest]: timestamps older than the window
    are shifted off the front. *)
Fixpoint prune (now : Z) (ts : list Z) : list Z :=
  match ts with
  | [] => []
  | t :: rest => if t <? now - REQUEST_WINDOW then prune now rest else ts
  end.

(** [requestTimestamps[0]]; [undefined] turns the arithmetic into [NaN]. *)
Definition oldestOf (ts : list Z) : jsnum :=
  match ts with
  | [] => NaN
  | t :: _ => Num t
  end.


Definition is429 (error : jserror) : bool :=
  includes "429" (message error) || includes "Too Many Requests" (message error).

(** One call of [operation()]: how long it takes and how it completes. *)
Abbreviation call T := (Z * outcome jserror T)%type.

Section Service.

(** [CONFIG.MAX_REQUESTS_PER_WINDOW], read from the environment
    ([parseInt(... || "30")]). *)
Variable MAX_REQUESTS_PER_WINDOW : Z.

(** The event loop: [wake t d] is the time at which the callback of a timer
    set at time [t] with delay [d] runs. *)
Variable wake : Z -> Z -> Z.

(** The type of what the operation returns. *)
Variable T : Type.

Definition canMakeRequest (s : state) : bool * state :=
  let ts := prune (clock s) (requestTimestamps s) in
  (Z.of_nat (length ts) <? MAX_REQUESTS_PER_WINDOW,
   {| clock := clock s; requestTimestamps := ts; waits := waits s;
      backoffs := backoffs s; attempts := attempts s |}).

(** [await new Promise(resolve => setTimeout(resolve, ms))] *)
Definition sleep (ms : jsnum) (s : state) : state :=
  {| clock := wake (clock s) (timer_delay ms);
     requestTimestamps := requestTimestamps s; waits := waits s;
     backoffs := backoffs s; attempts := attempts s |}.

(** [waitForRateLimit()]; [fuel] bounds the depth of its recursion. *)
Fixpoint waitForRateLimit (fuel : nat) (s : state) : option state :=
  match fuel with
  | O => None
  | S fuel' =>
      let (allowed, s1) := canMakeRequest s in
      if allowed then
        Some {| clock := clock s1;
                requestTimestamps := requestTimestamps s1 ++ [clock s1];
                waits := waits s1; backoffs := backoffs s1;
                attempts := attempts s1 |}
      else
        let oldestRequest := oldestOf (requestTimestamps s1) in
        let waitTime :=
          Js.sub (Num REQUEST_WINDOW) (Js.sub (Num (clock s1)) oldestRequest) in
        waitForRateLimit fuel'
          (sleep waitTime
             {| clock := clock s1; requestTimestamps := requestTimestamps s1;
                waits := waits s1 ++ [waitTime]; backoffs := backoffs s1;
                attempts := attempts s1 |})
  end.

(** The state in which [waitForRateLimit] returns when the request is let
    through at once. *)
Definition granted (s : state) : state :=
  {| clock := clock s;
     requestTimestamps := prune (clock s) (requestTimestamps s) ++ [clock s];
     waits := waits s; backoffs := backoffs s; attempts := attempts s |}.

(** The state in which it wakes up from its sleep when it is not. *)
Definition parked (s : state) : state :=
  let ts := prune (clock s) (requestTimestamps s) in
  let waitTime :=
    Js.sub (Num REQUEST_WINDOW) (Js.sub (Num (clock s)) (oldestOf ts)) in
  {| clock := wake (clock s) (timer_delay waitTime);
     requestTimestamps := ts; waits := waits s ++ [waitTime];
     backoffs := backoffs s; attempts := attempts s |}.


(** The delay computed in the [catch] block of [fetchWithRetry]. *)
Definition currentDelay (delay i : Z) (error : jserror) : Z :=
  if is429 error then MAX_DELAY else Z.min (delay * 2 ^ i) MAX_DELAY.

(** The [for] loop of [fetchWithRetry], entered with loop variable [i];
    [script] lists the completions of the successive calls of [operation].
    [None]: the script or the fuel of the rate limiter ran out. *)
Fixpoint retryLoop (fuel : nat) (retries delay i : Z) (script : list (call T))
    (s : state) : option (outcome jserror T * state) :=
  if retries <=? i then
    Some (Throw {| name := "Error"; message := "Maximum retries exceeded" |}, s)
  else
    match script with
    | [] => None
    | (took, completion) :: script' =>
        match waitForRateLimit fuel s with
        | None => None
        | Some s1 =>
            let s2 := {| clock := clock s1 + took;
                         requestTimestamps := requestTimestamps s1;
                         waits := waits s1; backoffs := backoffs s1;
                         attempts := S (attempts s1) |} in
            match completion with
            | Ok v => Some (Ok v, s2)
            | Throw error =>
                if (i =? retries - 1) && negb (is429 error) then
                  Some (Throw error, s2)
                else
                  let d := currentDelay delay i error in
                  let s3 := sleep (Num d)
                              {| clock := clock s2;
                                 requestTimestamps := requestTimestamps s2;
                                 waits := waits s2;
                                 backoffs := backoffs s2 ++ [d];
                                 attempts := attempts s2 |} in
                  if is429 error then
                    retryLoop fuel retries delay (Z.max 0 (i - 1) + 1) script'
                      {| clock := clock s3; requestTimestamps := [];
                         waits := waits s3; backoffs := backoffs s3;
                         attempts := attempts s3 |}
                  else
                    retryLoop fuel retries delay (i + 1) script' s3
            end
        end
    end.

Definition fetchWithRetry (fuel : nat) (script : list (call T))
    (retries delay : Z) (s : state) : option (outcome jserror T * state) :=
  retryLoop fuel retries delay 0 script s.

(** The state after one call of the operation that took [took] ms. *)
Definition invoked (took : Z) (s : state) : state :=
  {| clock := clock s + took; requestTimestamps := requestTimestamps s;
     waits := waits s; backoffs := backoffs s; attempts := S (attempts s) |}.

(** The state at the end of the [catch] block, after a failure at loop
    variable [i] that is retried. *)
Definition backedOff (delay i : Z) (error : jserror) (s : state) : state :=
  {| clock := wake (clock s) (timer_delay (Num (currentDelay delay i error)));
     requestTimestamps := if is429 error then [] else requestTimestamps s;
     waits := waits s;
     backoffs := backoffs s ++ [currentDelay delay i error];
     attempts := attempts s |}.

(** The loop variable of the next iteration. *)
Definition nextIndex (i : Z) (error : jserror) : Z :=
  if is429 error then Z.max 0 (i - 1) + 1 else i + 1.

Definition maximumRetriesExceeded : jserror :=
  {| name := "Error"; message := "Maximum retries exceeded" |}.

(** The window holds at most the maximum, and only times that have passed. *)
Definition windowOk (s : state) : Prop :=
  Z.of_nat (length (requestTimestamps s)) <= MAX_REQUESTS_PER_WINDOW /\
  Forall (fun t => t <= clock s) (requestTimestamps s).

(** A call of the operation that takes some time and, when it fails, fails
    with something else than a rate-limit error. *)
Definition plain (c : call T) : Prop :=
  0 <= fst c /\ forall e, snd c = Throw e -> is429 e = false.

End Service.

Arguments retryLoop MAX_REQUESTS_PER_WINDOW wake {T} fuel retries delay i script s.
Arguments fetchWithRetry MAX_REQUESTS_PER_WINDOW wake {T} fuel script retries delay s.
Arguments plain {T} c.

End Portfolio.

(** ** The CoinGecko service: cache, request counter and [fetchWithCORS] *)

Module CoinGecko.

Inductive error :=
| CryptoError (message code : string).

Record CacheEntry := { data : json; timestamp : Z }.

(** Module state, with a record of what a run did: the proxied requests
    sent with [fetch] and the delays passed to [wait]. *)
Record state := {
  clock : Z;                          (* Date.now() *)
  apiCache : gmap string CacheEntry;
  requestCount : Z;
  lastResetTime : Z;
  fetched : list string;
  waited : list Z
}.

(** How one call of [fetch] completes: it throws, or a response arrives with
    its status, status text and what [response.json()] does. *)
Inductive completion :=
| NetworkError (message : string)
| Response (status : Z) (statusText : string) (body : outcome string json).

(** One call of [fetch]: how long it takes and how it completes. *)
Abbreviation call := (Z * completion)%type.

Definition CORS_PROXIES : list string :=
  [ "https://corsproxy.io/?";
    "https://api.allorigins.win/raw?url=";
    "https://cors-anywhere.herokuapp.com/" ].

Definition CACHE_DURATION : Z := 2 * 60 * 1000.
Definition PRICE_CACHE_DURATION : Z := 30 * 1000.
Definition RATE_LIMIT_RESET : Z := 60 * 1000.
Definition MAX_REQUESTS_PER_MINUTE : Z := 30.
Definition INITIAL_BACKOFF : Z := 1000.
Definition MAX_BACKOFF : Z := 32000.
Definition MAX_RETRIES : Z := 3.

Definition checkRateLimit (s : state) : outcome error unit * state :=
  let s1 :=
    if RATE_LIMIT_RESET <=? clock s - lastResetTime s
    then {| clock := clock s; apiCache := apiCache s; requestCount := 0;
            lastResetTime := clock s; fetched := fetched s;
            waited := waited s |}
    else s in
  if MAX_REQUESTS_PER_MINUTE <=? requestCount s1
  then (Throw (CryptoError "Rate limit exceeded" "RATE_LIMIT"), s1)
  else (Ok tt,
        {| clock := clock s1; apiCache := apiCache s1;
           requestCount := requestCount s1 + 1;
           lastResetTime := lastResetTime s1; fetched := fetched s1;
           waited := waited s1 |}).

(** [getCachedData(key, maxAge)]; [None] is the [null] it returns on a miss. *)
Definition getCachedData (key : string) (maxAge : Z) (s : state) : option json :=
  match apiCache s !! key with
  | Some cached =>
      if clock s - timestamp cached <? maxAge then Some (data cached) else None
  | None => None
  end.

Definition setCachedData (key : string) (d : json) (s : state) : state :=
  {| clock := clock s;
     apiCache := <[key := {| data := d; timestamp := clock s |}]> (apiCache s);
     requestCount := requestCount s; lastResetTime := lastResetTime s;
     fetched := fetched s; waited := waited s |}.

(** [if (cacheKey)]: a missing key and the empty string are both falsy. *)
Definition givenKey (cacheKey : option string) : option string :=
  match cacheKey with
  | Some k => if String.eqb k "" then None else Some k
  | None => None
  end.

(** [response.ok] *)
Definition ok (status : Z) : bool := (200 <=? status) && (status <=? 299).

Definition nextBackoff (backoffTime : Z) : Z := Z.min (backoffTime * 2) MAX_BACKOFF.

(** [`All fetch attempts failed: ${lastError?.message || "Unknown error"}`] *)
Definition exhausted (lastError : option string) : error :=
  let cause :=
    match lastError with
    | Some m => if String.eqb m "" then "Unknown error" else m
    | None => "Unknown error"
    end in
  CryptoError ("All fetch attempts failed: " ++ cause) "FETCH_ERROR".

Section Service.

(** The event loop: [wake t d] is the time at which the callback of a timer
    set at time [t] with delay [d] runs. *)
Variable wake : Z -> Z -> Z.

(** [await wait(ms)] *)
Definition wait (ms : Z) (s : state) : state :=
  {| clock := wake (clock s) (timer_delay (Num ms)); apiCache := apiCache s;
     requestCount := requestCount s; lastResetTime := lastResetTime s;
     fetched := fetched s; waited := waited s ++ [ms] |}.

(** How the loop over the proxies ends: with the data of a good response, or
    past the last proxy with the values of [lastError] and [backoffTime]. *)
Inductive proxied :=
| Got (d : json)
| Fell (lastError : option string) (backoffTime : Z).

(** The inner [for (const proxy of CORS_PROXIES)] loop. [None]: the script
    of [fetch] completions ran out. *)
Fixpoint tryProxies (proxies : list string) (url : string)
    (cacheKey : option string) (lastError : option string) (backoffTime : Z)
    (script : list call) (s : state)
  : option (proxied * list call * state) :=
  match proxies with
  | [] => Some (Fell lastError backoffTime, script, s)
  | proxy :: proxies' =>
      match script with
      | [] => None
      | (took, c) :: script' =>
          let s1 := {| clock := clock s + took; apiCache := apiCache s;
                       requestCount := requestCount s;
                       lastResetTime := lastResetTime s;
                       fetched := fetched s ++ [(proxy ++ encodeURIComponent url)%string];
                       waited := waited s |} in
          match c with
          | NetworkError m =>
              tryProxies proxies' url cacheKey (Some m) backoffTime script' s1
          | Response status statusText body =>
              if status =? 429 then
                tryProxies proxies' url cacheKey lastError
                  (nextBackoff backoffTime) script' (wait backoffTime s1)
              else if ok status then
                match body with
                | Ok d =>
                    Some (Got d, script',
                          match givenKey cacheKey with
                          | Some k => setCachedData k d s1
                          | None => s1
                          end)
                | Throw m =>
                    tryProxies proxies' url cacheKey (Some m) backoffTime
                      script' s1
                end
              else
                tryProxies proxies' url cacheKey
                  (Some ("HTTP " ++ pretty status ++ ": " ++ statusText)%string)
                  backoffTime script' s1
          end
      end
  end.

(** The outer [for (let retry = 0; retry <= MAX_RETRIES; retry++)] loop,
    over the values of [retry] still to come. *)
Fixpoint retryLoop (retries : list Z) (url : string) (cacheKey : option string)
    (lastError : option string) (backoffTime : Z) (script : list call)
    (s : state) : option (outcome error json * state) :=
  match retries with
  | [] => Some (Throw (exhausted lastError), s)
  | retry :: retries' =>
      match checkRateLimit s with
      | (Throw _, s1) =>
          retryLoop retries' url cacheKey lastError (nextBackoff backoffTime)
            script (wait backoffTime s1)
      | (Ok _, s1) =>
          match tryProxies CORS_PROXIES url cacheKey lastError backoffTime
                  script s1 with
          | None => None
          | Some (Got d, _, s2) => Some (Ok d, s2)
          | Some (Fell lastError' backoffTime', script', s2) =>
              if retry <? MAX_RETRIES then
                retryLoop retries' url cacheKey lastError'
                  (nextBackoff backoffTime') script' (wait backoffTime' s2)
              else
                retryLoop retries' url cacheKey lastError' backoffTime'
                  script' s2
          end
      end
  end.

(** [fetchWithCORS(url, options, cacheKey, cacheDuration)]; the value is the
    JSON body of the [Response] it builds. *)
Definition fetchWithCORS (url : string) (cacheKey : option string)
    (cacheDuration : Z) (script : list call) (s : state)
  : option (outcome error json * state) :=
  let cachedData :=
    match givenKey cacheKey with
    | Some k => getCachedData k cacheDuration s
    | None => None
    end in
  match cachedData with
  | Some d =>
      if truthy d then Some (Ok d, s)
      else retryLoop [0; 1; 2; 3] url cacheKey None INITIAL_BACKOFF script s
  | None => retryLoop [0; 1; 2; 3] url cacheKey None INITIAL_BACKOFF script s
  end.

(** The state in which the first proxied request of a call has been
    answered after [took] ms, the request counter having let the call
    through: the counter restarts when the minute is over, and counts the
    call. *)
Definition sent (url : string) (took : Z) (s : state) : state :=
  let reset := RATE_LIMIT_RESET <=? clock s - lastResetTime s in
  {| clock := clock s + took; apiCache := apiCache s;
     requestCount := (if reset then 0 else requestCount s) + 1;
     lastResetTime := if reset then clock s else lastResetTime s;
     fetched := fetched s ++ [("https://corsproxy.io/?" ++ encodeURIComponent url)%string];
     waited := waited s |}.

(** What [fetchWithCORS] does not serve from the cache: no entry under the
    key, an entry as old as the cache duration or older, or an entry whose
    data is falsy. *)
Definition unserved (k : string) (cacheDuration : Z) (s : state) : Prop :=
  apiCache s !! k = None \/
  exists e, apiCache s !! k = Some e /\
            (cacheDuration <= clock s - timestamp e \/ truthy (data e) = false).

(** The request counter has room: the minute is over, or fewer than 30
    requests were counted in it. *)
Definition hasRoom (s : state) : Prop :=
  RATE_LIMIT_RESET <= clock s - lastResetTime s \/
  requestCount s < MAX_REQUESTS_PER_MINUTE.

End Service.
End CoinGecko.

(** ** A platform to run the definitions on *)

Module Demo.

(** ISO-8601 text of an instant, the way [toISOString] writes it
    ([YYYY-MM-DDTHH:mm:ss.sssZ], years 0000 to 9999). *)
Definition pad (width : nat) (n : Z) : string :=
  let digits := pretty n in
  (String.concat "" (repeat "0"%string (width - String.length digits)) ++ digits)%string.

Definition civil (days : Z) : Z * Z * Z :=
  let z := days + 719468 in
  let era := z / 146097 in
  let doe := z mod 146097 in
  let yoe := (doe - doe / 1460 + doe / 36524 - doe / 146096) / 365 in
  let doy := doe - (365 * yoe + yoe / 4 - yoe / 100) in
  let mp := (5 * doy + 2) / 153 in
  let d := doy - (153 * mp + 2) / 5 + 1 in
  let m := if mp <? 10 then mp + 3 else mp - 9 in
  let y := yoe + era * 400 + (if m <=? 2 then 1 else 0) in
  (y, m, d).

Definition isoOf (t : Z) : string :=
  let '(y, m, d) := civil (t / 86400000) in
  let ms := t mod 86400000 in
  (pad 4 y ++ "-" ++ pad 2 m ++ "-" ++ pad 2 d ++ "T" ++
   pad 2 (ms / 3600000) ++ ":" ++ pad 2 (ms / 60000 mod 60) ++ ":" ++
   pad 2 (ms / 1000 mod 60) ++ "." ++ pad 3 (ms mod 1000) ++ "Z")%string.

Fixpoint digits (s : string) (acc : Z) : option Z :=
  match s with
  | EmptyString => Some acc
  | String c rest =>
      let n := Z.of_nat (Ascii.nat_of_ascii c) - 48 in
      if (0 <=? n) && (n <=? 9) then digits rest (10 * acc + n) else None
  end.

Definition field (s : string) (start len : nat) : option Z :=
  digits (String.substring start len s) 0.

Definition daysOf (y m d : Z) : Z :=
  let y' := if m <=? 2 then y - 1 else y in
  let era := y' / 400 in
  let yoe := y' mod 400 in
  let doy := (153 * (if 2 <? m then m - 3 else m + 9) + 2) / 5 + d - 1 in
  let doe := yoe * 365 + yoe / 4 - yoe / 100 + doy in
  era * 146097 + doe - 719468.

Definition timeOfIso (s : string) : jsnum :=
  match field s 0 4, field s 5 2, field s 8 2, field s 11 2, field s 14 2,
        field s 17 2, field s 20 3 with
  | Some y, Some m, Some d, Some hh, Some mm, Some ss, Some ms =>
      if (String.length s =? 24)%nat then
        Num (daysOf y m d * 86400000 + hh * 3600000 + mm * 60000 + ss * 1000 + ms)
      else NaN
  | _, _, _, _, _, _, _ => NaN
  end.

(** A transaction, reduced to what signing looks at. *)
Record tx := {
  recentBlockhash : option string;
  signers : list string;
  signatures : list string
}.

Fixpoint bytesOf (l : list json) : option (list Z) :=
  match l with
  | [] => Some []
  | JNum n :: rest =>
      match bytesOf rest with
      | Some r => Some (n mod 256 :: r)
      | None => None
      end
  | _ :: _ => None
  end.

(** A keypair is its 64 secret bytes; signing needs a recent blockhash and
    the key among the signers of the transaction. *)
#[export] Instance platform : Platform := {|
  Keypair := list Z;
  Transaction := tx;
  fromSecretKey v :=
    match v with
    | Some (JArr l) =>
        match bytesOf l with
        | Some bytes => if (length bytes =? 64)%nat then Some bytes else None
        | None => None
        end
    | _ => None
    end;
  publicKey58 kp := String.concat "" (map pretty (drop 32 kp));
  secretKeyBytes kp := kp;
  partialSign t kp :=
    let pk := String.concat "" (map pretty (drop 32 kp)) in
    match recentBlockhash t with
    | None => Throw "Transaction recentBlockhash required"%string
    | Some _ =>
        if bool_decide (pk ∈ signers t)
        then Ok {| recentBlockhash := recentBlockhash t; signers := signers t;
                   signatures := signatures t ++ [pk] |}
        else Throw ("unknown signer: " ++ pk)%string
    end;
  getTime v :=
    match v with
    | Some (JStr s) => timeOfIso s
    | Some (JNum n) => Num n
    | _ => NaN
    end;
  toISOString := isoOf
|}.

Definition key : list Z := repeat 7 64.

(** The record [createBurnerWallet] stores at time 0, and an adapter
    constructed over it at that time. *)
Definition record0 : json :=
  BurnerWallet.walletData key "ann" "ann@example.org" 0.

Definition stored0 : gmap string item :=
  {[ BurnerWallet.storageKey := Doc record0 ]}.

Definition fresh : BurnerWallet.world := BurnerWallet.construct 0 stored0.

(** The same adapter 23 hours, exactly 24 hours and just over 24 hours
    later; no timer callback has run yet. *)
Definition young : BurnerWallet.world := BurnerWallet.elapse 82800000 fresh.
Definition due : BurnerWallet.world := BurnerWallet.elapse 86400000 fresh.
Definition overdue : BurnerWallet.world := BurnerWallet.elapse 86401000 fresh.

(** An adapter constructed over an empty storage, the record stored by the
    page afterwards, more than 24 hours ago. *)
Definition unloaded : BurnerWallet.world :=
  BurnerWallet.elapse 86401000
    (BurnerWallet.setItem BurnerWallet.storageKey (Doc record0)
       (BurnerWallet.construct 0 ∅)).

(** An adapter whose storage slot was overwritten with a text that is not
    JSON. *)
Definition garbled : BurnerWallet.world :=
  BurnerWallet.setItem BurnerWallet.storageKey (Text "{oops") young.

Definition closedForm : BurnerWallet.ui :=
  {| BurnerWallet.isCreating := false; BurnerWallet.showModal := true;
     BurnerWallet.showSuccessModal := false;
     BurnerWallet.walletAddress := None; BurnerWallet.alerts := [];
     BurnerWallet.selected := None |}.

(** A transaction the demo key can sign, and one without blockhash. *)
Definition transfer : tx :=
  {| recentBlockhash := Some "9sHcv6xwn9YkB8nxTUGKDwPwNnmqVp5oAXxU8Fdkm4J6"%string;
     signers := [String.concat "" (map pretty (drop 32 key))];
     signatures := [] |}.

Definition unfinished : tx :=
  {| recentBlockhash := None;
     signers := [String.concat "" (map pretty (drop 32 key))];
     signatures := [] |}.

(** Timers that run exactly when they are due. *)
Definition punctual (t d : Z) : Z := t + Z.max 0 d.

(** Timers that run one millisecond late. *)
Definition late (t d : Z) : Z := t + Z.max 0 d + 1.

(** The portfolio service before any request, and with a window of two
    requests that is full. *)
Definition idle : Portfolio.state :=
  {| Portfolio.clock := 0; Portfolio.requestTimestamps := [];
     Portfolio.waits := []; Portfolio.backoffs := [];
     Portfolio.attempts := 0 |}.

Definition busy : Portfolio.state :=
  {| Portfolio.clock := 1500; Portfolio.requestTimestamps := [1000; 1200];
     Portfolio.waits := []; Portfolio.backoffs := [];
     Portfolio.attempts := 0 |}.

(** The CoinGecko service with one cached price stored at time 0, seen
    20 s later (entry live under the 30 s of [PRICE_CACHE_DURATION]), seen
    100 s later (entry expired), and seen 100 s later when the 30 requests
    of the current minute have been used up one second ago. *)
Definition price : json :=
  JObj [("solana", JObj [("usd", JNum 150)])].

Definition cached : gmap string CoinGecko.CacheEntry :=
  {[ "sol_price"%string := {| CoinGecko.data := price; CoinGecko.timestamp := 0 |} ]}.

Definition warm : CoinGecko.state :=
  {| CoinGecko.clock := 20000; CoinGecko.apiCache := cached;
     CoinGecko.requestCount := 1; CoinGecko.lastResetTime := 0;
     CoinGecko.fetched := []; CoinGecko.waited := [] |}.

Definition stale : CoinGecko.state :=
  {| CoinGecko.clock := 100000; CoinGecko.apiCache := cached;
     CoinGecko.requestCount := 1; CoinGecko.lastResetTime := 0;
     CoinGecko.fetched := []; CoinGecko.waited := [] |}.

Definition saturated : CoinGecko.state :=
  {| CoinGecko.clock := 100000; CoinGecko.apiCache := cached;
     CoinGecko.requestCount := 30; CoinGecko.lastResetTime := 99000;
     CoinGecko.fetched := []; CoinGecko.waited := [] |}.

(** The same service holding a cached body that is the number 0. *)
Definition zeroed : CoinGecko.state :=
  {| CoinGecko.clock := 20000;
     CoinGecko.apiCache :=
       {[ "sol_price"%string := {| CoinGecko.data := JNum 0; CoinGecko.timestamp := 0 |} ]};
     CoinGecko.requestCount := 1; CoinGecko.lastResetTime := 0;
     CoinGecko.fetched := []; CoinGecko.waited := [] |}.

Definition priceUrl : string := "https://api.coingecko.com/api/v3/simple/price?ids=solana".

Definition tooMany : Portfolio.jserror :=
  {| Portfolio.name := "Error";
     Portfolio.message := "429 Too Many Requests" |}.

Definition timedOut : Portfolio.jserror :=
  {| Portfolio.name := "Error"; Portfolio.message := "fetch failed" |}.

End Demo.

(** ** components/BurnerWalletBanner.tsx *)

Module Banner.
Section Banner.
Context `{P : Platform}.

(** The text [updateTime] computes from the remaining time: [remaining <= 0]
    is false on [NaN], whose [Math.floor] is [NaN] again. *)
Definition formatTime (remaining : jsnum) : string :=
  match remaining with
  | NaN => "NaNh NaNm"
  | Num ms =>
      if ms <=? 0 then "Expired"
      else
        let hours := ms / (60 * 60 * 1000) in
        let minutes := (ms mod (60 * 60 * 1000)) / (60 * 1000) in
        (pretty hours ++ "h " ++ pretty minutes ++ "m")%string
  end.

(** [updateTime()] of the banner over a burner adapter: the new value of
    [timeLeft]; what [getTimeRemaining] throws is not caught. *)
Definition updateTime (w : BurnerWallet.world) : outcome BurnerWallet.error string :=
  match BurnerWallet.getTimeRemaining w with
  | Ok remaining => Ok (formatTime remaining)
  | Throw e => Throw e
  end.

End Banner.
End Banner.

(** ** components/BurnerWallet.tsx: the effect run on mount *)

Module BurnerWalletComponent.

(** The [useEffect] of [BurnerWallet]: the value of [walletAddress] after it
    ([None]: still falsy), or the error [JSON.parse] or the destructuring
    throws out of the effect. *)
Definition mountEffect (st : gmap string item)
  : outcome BurnerWallet.error (option json) :=
  match st !! BurnerWallet.storageKey with
  | None => Ok None
  | Some walletData =>
      if negb (nonempty walletData) then Ok None
      else
        match JSON_parse walletData with
        | None => Throw BurnerWallet.SyntaxError
        | Some JNull => Throw BurnerWallet.TypeError
        | Some j => Ok (prop "publicKey" j)
        end
  end.

End BurnerWalletComponent.

(** ** config/wallets.ts *)

Module WalletOptions.

Record WalletOption := {
  name : string;
  adapter : string;
  recommended : bool;
  installUrl : string;
  detectObject : option string;
  isBurner : bool
}.

Definition walletOptions : list WalletOption :=
  [ {| name := "Phantom"; adapter := "Phantom"; recommended := true;
       installUrl := "https://phantom.app/download";
       detectObject := Some "solana"%string; isBurner := false |};
    {| name := "Solflare"; adapter := "Solflare"; recommended := true;
       installUrl := "https://solflare.com";
       detectObject := Some "solflare"%string; isBurner := false |};
    {| name := "Burner Wallet"; adapter := "Burner"; recommended := false;
       installUrl := ""; detectObject := None; isBurner := true |} ].

(** What [detectWallet] reads of the [window] object: the truthiness of
    [window.solana?.isPhantom], of [window.solflare?.isSolflare] and of
    [window[name]]. *)
Record window := {
  solanaIsPhantom : bool;
  solflareIsSolflare : bool;
  global : string -> bool
}.

(** [!!option?.detectObject] *)
Definition hasDetectObject (o : option WalletOption) : option string :=
  match o with
  | Some opt =>
      match detectObject opt with
      | Some d => if String.eqb d "" then None else Some d
      | None => None
      end
  | None => None
  end.

Definition detectWallet (n : string) (win : window) (st : gmap string item) : bool :=
  let option := List.find (fun opt => String.eqb (name opt) n) walletOptions in
  match hasDetectObject option with
  | None => false
  | Some d =>
      if String.eqb n "Phantom" then solanaIsPhantom win
      else if String.eqb n "Solflare" then solflareIsSolflare win
      else if String.eqb n "Burner" then
        match st !! BurnerWallet.storageKey with
        | Some walletData => nonempty walletData
        | None => false
        end
      else global win d
  end.

End WalletOptions.

(** ** services/portfolioService.ts: the two caches *)

Module PortfolioCache.

Definition METADATA_CACHE_DURATION : Z := 30 * 60 * 1000.
Definition STATS_CACHE_DURATION : Z := 60 * 1000.

Record cached (D : Type) := { data : D; timestamp : Z }.
Arguments data {D} c.
Arguments timestamp {D} c.

Section Caches.

(** The types of the cached metadata and of the cached statistics. *)
Variable M S : Type.

Record state := {
  clock : Z;                                   (* Date.now() *)
  metadataCache : gmap string (cached M);
  statsCache : gmap string (cached S)
}.

(** [None] is the [null] of a miss. *)
Definition getCachedMetadata (key : string) (s : state) : option M :=
  match metadataCache s !! key with
  | Some c =>
      if clock s - timestamp c <? METADATA_CACHE_DURATION then Some (data c) else None
  | None => None
  end.

Definition getCachedStats (key : string) (s : state) : option S :=
  match statsCache s !! key with
  | Some c =>
      if clock s - timestamp c <? STATS_CACHE_DURATION then Some (data c) else None
  | None => None
  end.

Definition setCachedMetadata (key : string) (d : M) (s : state) : state :=
  {| clock := clock s;
     metadataCache := <[key := {| data := d; timestamp := clock s |}]> (metadataCache s);
     statsCache := statsCache s |}.

Definition setCachedStats (key : string) (d : S) (s : state) : state :=
  {| clock := clock s;
     metadataCache := metadataCache s;
     statsCache := <[key := {| data := d; timestamp := clock s |}]> (statsCache s) |}.

(** Time passes. *)
Definition later (dt : Z) (s : state) : state :=
  {| clock := clock s + dt; metadataCache := metadataCache s;
     statsCache := statsCache s |}.

End Caches.

Arguments clock {M S} s.
Arguments metadataCache {M S} s.
Arguments statsCache {M S} s.
Arguments getCachedMetadata {M S} key s.
Arguments getCachedStats {M S} key s.
Arguments setCachedMetadata {M S} key d s.
Arguments setCachedStats {M S} key d s.
Arguments later {M S} dt s.

End PortfolioCache.

(** ** services/portfolioService.ts: the price history *)

Module PriceHistory.

Definition PRICE_HISTORY_LIMIT : nat := 24.
Definition STORAGE_KEY_PREFIX : string := "price_history_".
Definition DAY : Z := 24 * 60 * 60 * 1000.

Section History.

(** Prices are JavaScript numbers; the code compares them with [!==] and
    writes them with [JSON.stringify], which turns [NaN] and the infinities
    into [null]. *)
Variable price : Type.
Variable differs : price -> price -> bool.
Variable finite : price -> bool.

Record entry := { value : price; timestamp : Z }.

(** An element of a parsed array, by what the filter of
    [loadPersistedPriceHistory] looks at: [null] (reading a member throws),
    or a value with its [price] and [timestamp] members when they are
    numbers. *)
Inductive raw :=
| RNull
| RItem (p : option price) (t : option Z).

(** What a storage slot holds: a text that is empty or not JSON, the JSON
    text of something that is not an array, or the JSON text of an array. *)
Inductive stored :=
| BadText
| NotArray
| Entries (l : list raw).

Record state := {
  clock : Z;                                  (* Date.now() *)
  PRICE_HISTORY : gmap string (list entry);
  localStorage : gmap string stored
}.

(** [JSON.stringify] of one entry, read back. *)
Definition rawOf (e : entry) : raw :=
  RItem (if finite (value e) then Some (value e) else None) (Some (timestamp e)).

(** The callback of the filter of [loadPersistedPriceHistory]; [None] when
    it throws. *)
Definition keep (oneDayAgo : Z) (r : raw) : option (option entry) :=
  match r with
  | RNull => None
  | RItem (Some p) (Some t) =>
      Some (if oneDayAgo <=? t then Some {| value := p; timestamp := t |} else None)
  | RItem _ _ => Some None
  end.

(** [history.filter(...)]; [None] when the callback throws on an element. *)
Fixpoint filterRaw (oneDayAgo : Z) (l : list raw) : option (list entry) :=
  match l with
  | [] => Some []
  | r :: rest =>
      match keep oneDayAgo r with
      | None => None
      | Some kept =>
          match filterRaw oneDayAgo rest with
          | None => None
          | Some tail =>
              Some (match kept with Some e => e :: tail | None => tail end)
          end
      end
  end.

(** [loadPersistedPriceHistory(mintAddress)]: every exception of the [try]
    block ends in the empty history. *)
Definition loadPersistedPriceHistory (mintAddress : string) (s : state) : list entry :=
  match localStorage s !! (STORAGE_KEY_PREFIX ++ mintAddress)%string with
  | Some (Entries l) =>
      match filterRaw (clock s - DAY) l with
      | Some history => history
      | None => []
      end
  | _ => []
  end.

(** [persistPriceHistory(mintAddress, history)]; [writable] tells whether
    [localStorage.setItem] succeeds (its exception is caught). *)
Definition persistPriceHistory (writable : bool) (mintAddress : string)
    (history : list entry) (s : state) : state :=
  if writable then
    {| clock := clock s; PRICE_HISTORY := PRICE_HISTORY s;
       localStorage :=
         <[(STORAGE_KEY_PREFIX ++ mintAddress)%string := Entries (map rawOf history)]>
           (localStorage s) |}
  else s.

(** [history.slice(-PRICE_HISTORY_LIMIT)] *)
Definition lastN (n : nat) (l : list entry) : list entry :=
  drop (length l - n) l.

(** The array [updatePriceHistory] works on: the one of the map, which is
    initialised from the storage when the map has none for the mint. *)
Definition historyOf (mintAddress : string) (s : state) : list entry :=
  match PRICE_HISTORY s !! mintAddress with
  | Some h => h
  | None => loadPersistedPriceHistory mintAddress s
  end.

Definition updatePriceHistory (writable : bool) (mintAddress : string)
    (p : price) (s : state) : state :=
  let history := historyOf mintAddress s in
  let now := clock s in
  let pushed :=
    match last history with
    | Some lastEntry =>
        if differs (value lastEntry) p
        then history ++ [{| value := p; timestamp := now |}]
        else history
    | None => history ++ [{| value := p; timestamp := now |}]
    end in
  let oneDayAgo := now - DAY in
  let updatedHistory :=
    lastN PRICE_HISTORY_LIMIT
      (filter (fun e => oneDayAgo <= timestamp e) pushed) in
  persistPriceHistory writable mintAddress updatedHistory
    {| clock := clock s;
       PRICE_HISTORY := <[mintAddress := updatedHistory]> (PRICE_HISTORY s);
       localStorage := localStorage s |}.

(** The page is loaded again: the module starts with an empty map over the
    same storage. *)
Definition reloaded (s : state) : state :=
  {| clock := clock s; PRICE_HISTORY := ∅; localStorage := localStorage s |}.

Definition later (dt : Z) (s : state) : state :=
  {| clock := clock s + dt; PRICE_HISTORY := PRICE_HISTORY s;
     localStorage := localStorage s |}.

End History.

Arguments value {price} e.
Arguments timestamp {price} e.
Arguments RNull {price}.
Arguments RItem {price} p t.
Arguments BadText {price}.
Arguments NotArray {price}.
Arguments Entries {price} l.
Arguments clock {price} s.
Arguments PRICE_HISTORY {price} s.
Arguments localStorage {price} s.
Arguments loadPersistedPriceHistory {price} mintAddress s.
Arguments historyOf {price} mintAddress s.
Arguments lastN {price} n l.
Arguments reloaded {price} s.
Arguments later {price} dt s.

End PriceHistory.

(** ** Runs of calls, and the backoff sequences *)

Module Runs.

(** Time passes for the CoinGecko service. *)
Definition elapsed (dt : Z) (s : CoinGecko.state) : CoinGecko.state :=
  {| CoinGecko.clock := CoinGecko.clock s + dt;
     CoinGecko.apiCache := CoinGecko.apiCache s;
     CoinGecko.requestCount := CoinGecko.requestCount s;
     CoinGecko.lastResetTime := CoinGecko.lastResetTime s;
     CoinGecko.fetched := CoinGecko.fetched s;
     CoinGecko.waited := CoinGecko.waited s |}.

(** [checkRateLimit] called after each of the given pauses; the list tells
    which calls were let through. *)
Fixpoint checks (pauses : list Z) (s : CoinGecko.state) : list bool * CoinGecko.state :=
  match pauses with
  | [] => ([], s)
  | dt :: rest =>
      let (r, s1) := CoinGecko.checkRateLimit (elapsed dt s) in
      let (rs, s2) := checks rest s1 in
      ((match r with Ok _ => true | Throw _ => false end) :: rs, s2)
  end.

(** The [j]-th value of [backoffTime] in [fetchWithCORS]. *)
Definition corsBackoff (j : nat) : Z :=
  Z.min (CoinGecko.INITIAL_BACKOFF * 2 ^ Z.of_nat j) CoinGecko.MAX_BACKOFF.

(** The delay [fetchWithRetry] computes at loop variable [i] for a failure
    that is not a rate-limit error. *)
Definition retryBackoff (delay : Z) (i : nat) : Z :=
  Z.min (delay * 2 ^ Z.of_nat i) Portfolio.MAX_DELAY.

Definition total (l : list Z) : Z := foldr Z.add 0 l.

(** The most waits the iterations of the loop of [fetchWithCORS] can make:
    one after each of the three proxies, and one more at the end of an
    iteration that is not the last. *)
Definition maxWaits (retries : list Z) : nat :=
  foldr (fun (retry : Z) (n : nat) =>
           ((if (retry <? CoinGecko.MAX_RETRIES)%Z then 4 else 3) + n)%nat)
        0%nat retries.

End Runs.

(** ** More cases to run the definitions on *)

Module Cases.
Import Demo.

(** A second wallet, created one second after the first. *)
Definition key2 : list Z := repeat 9 64.

Definition record1 : json :=
  BurnerWallet.walletData key2 "bob" "bob@example.org" 1000.

(** The adapter of [Demo.fresh], connected; five seconds later the page
    has stored the second wallet over the first. *)
Definition connected : BurnerWallet.world :=
  fst (BurnerWallet.connect Demo.fresh).

Definition overwritten : BurnerWallet.world :=
  BurnerWallet.setItem BurnerWallet.storageKey (Doc record1)
    (BurnerWallet.elapse 5000 connected).

(** An adapter constructed over an empty storage: no wallet is loaded. The
    page stores a wallet record afterwards, and an hour passes. *)
Definition stray : BurnerWallet.world :=
  BurnerWallet.elapse 3600000
    (BurnerWallet.setItem BurnerWallet.storageKey (Doc record0)
       (BurnerWallet.construct 0 ∅)).

(** The adapter of [Demo.young], its wallet loaded, after the page has
    removed the record. *)
Definition orphaned : BurnerWallet.world :=
  BurnerWallet.removeItem BurnerWallet.storageKey young.

(** The purge timer of [Demo.due] has run and [connect] is called. *)
Definition purgedThenConnect : list BurnerWallet.action :=
  [BurnerWallet.TimerFires; BurnerWallet.CallConnect].

(** Prices as whole numbers of cents: [!==] is inequality and every price
    is finite. *)
Definition differs (a b : Z) : bool := negb (a =? b).
Definition finite (_ : Z) : bool := true.

(** A price history of one mint with one entry, seen two hours after that
    entry was recorded; nothing is persisted yet. *)
Definition ticker : PriceHistory.state Z :=
  {| PriceHistory.clock := 90000000;
     PriceHistory.PRICE_HISTORY :=
       {[ "So11111111111111111111111111111111111111112"%string :=
            [ {| PriceHistory.value := 15000; PriceHistory.timestamp := 82800000 |} ] ]};
     PriceHistory.localStorage := ∅ |}.

(** Twelve requests that all fail on the network, and a first request that
    is answered. *)
Definition outage : list CoinGecko.call :=
  repeat (10, CoinGecko.NetworkError "Failed to fetch") 12.

Definition answered : list CoinGecko.call :=
  (10, CoinGecko.Response 200 "OK" (Ok Demo.price)) :: outage.

(** The service of [Demo.warm] seen 45 s after the price was cached: the
    entry is older than the 30 s of [PRICE_CACHE_DURATION], the counter of
    the minute stands at 1. *)
Definition aging : CoinGecko.state :=
  {| CoinGecko.clock := 45000; CoinGecko.apiCache := cached;
     CoinGecko.requestCount := 1; CoinGecko.lastResetTime := 0;
     CoinGecko.fetched := []; CoinGecko.waited := [] |}.


(** Thirty-five calls, one second apart. *)
Definition burst : list Z := repeat 1000 35.

(** An operation that is rate limited, then times out, then succeeds. *)
Definition flaky : list (Portfolio.call Z) :=
  [(10, Throw Demo.tooMany); (10, Throw Demo.timedOut); (10, Ok 7)].

Definition failing : list (Portfolio.call Z) :=
  [(10, Throw Demo.timedOut); (10, Throw Demo.timedOut); (10, Throw Demo.timedOut)].

End Cases.

(** * Properties of the burner wallet *)

Section WalletProperties.
Import BurnerWallet.
Context `{P : Platform}.

Lemma clearWallet_purged (w : world) : purged (clearWallet w).
Proof.
  unfold purged, clearWallet; simpl.
  repeat split; try reflexivity. apply lookup_delete_eq.
Qed.

Lemma clearWallet_consistent (w : world) :
  consistent w -> consistent (clearWallet w).
Proof.
  unfold consistent, clearWallet; simpl. intros (Hc & _ & _).
  repeat split; [exact Hc | discriminate | intros [x Hx]; discriminate].
Qed.

Lemma setupDisconnectTimer_consistent (c : jsnum) (w : world) :
  consistent w -> consistent (setupDisconnectTimer c w).
Proof.
  intros H. unfold setupDisconnectTimer.
  destruct (Js.le _ _); [now apply clearWallet_consistent|].
  unfold consistent, with_self in *; simpl. destruct H as (Hc & Hk & _).
  repeat split; eauto.
Qed.

Lemma connect_consistent (w : world) :
  consistent w -> consistent (fst (connect w)).
Proof.
  unfold consistent, connect, with_self. intros (Hc & Hk & Ht).
  destruct (_connecting (self w) || _connected (self w)) eqn:E; simpl.
  - repeat split; assumption.
  - destruct (_keypair (self w)) as [kp|] eqn:K; simpl.
    + repeat split; eauto.
    + repeat split; eauto.
Qed.

Lemma loadBurnerWallet_consistent (w : world) :
  consistent w -> consistent (loadBurnerWallet w).
Proof.
  intros H. unfold loadBurnerWallet.
  destruct (localStorage w !! storageKey) as [it|]; [|exact H].
  destruct (negb (nonempty it)); [exact H|].
  destruct (JSON_parse it) as [j|]; [|now apply clearWallet_consistent].
  assert (Hload : forall kp c,
    consistent
      (let w2 := setupDisconnectTimer c
                   (with_self w {| _keypair := Some kp;
                                   _connecting := _connecting (self w);
                                   _connected := _connected (self w);
                                   _disconnectTimer := _disconnectTimer (self w) |}) in
       if _connected (self w2) then fst (connect w2) else w2)).
  { intros kp c. cbv zeta.
    set (w1 := with_self w _).
    assert (H1 : consistent (setupDisconnectTimer c w1)).
    { unfold setupDisconnectTimer.
      destruct (Js.le _ _); [|].
      - unfold consistent, clearWallet, w1, with_self; simpl.
        destruct H as (Hc & _ & _).
        repeat split; [exact Hc | discriminate | intros [x Hx]; discriminate].
      - unfold consistent, w1, with_self; simpl. destruct H as (Hc & _ & _).
        repeat split; eauto. }
    destruct (_connected (self (setupDisconnectTimer c w1)));
      [now apply connect_consistent | exact H1]. }
  destruct j; try (destruct (Js.gt _ _); [now apply clearWallet_consistent|];
    destruct (fromSecretKey _) as [kp|];
    [apply Hload | now apply clearWallet_consistent]).
  now apply clearWallet_consistent.
Qed.

Lemma step_consistent (w w' : world) (a : action) :
  consistent w -> step w a = Some w' -> consistent w'.
Proof.
  intros H Hs. destruct a; simpl in Hs.
  - destruct (0 <=? dt); inversion Hs; subst. exact H.
  - destruct (_disconnectTimer (self w)) as [due|]; [|discriminate].
    destruct (due <=? now w); inversion Hs; subst.
    now apply clearWallet_consistent.
  - inversion Hs; subst. now apply loadBurnerWallet_consistent.
  - inversion Hs; subst. now apply connect_consistent.
  - inversion Hs; subst. now apply clearWallet_consistent.
  - inversion Hs; subst. exact H.
  - inversion Hs; subst. exact H.
Qed.

Lemma reachable_consistent (w : world) : reachable w -> consistent w.
Proof.
  induction 1 as [t st | w a w' _ IH Hs].
  - apply loadBurnerWallet_consistent. unfold consistent; simpl.
    repeat split; [discriminate | intros [x Hx]; discriminate].
  - exact (step_consistent _ _ _ IH Hs).
Qed.

Lemma to_int32_small (z : Z) : 0 <= z < 2 ^ 31 -> to_int32 z = z.
Proof.
  intros H. unfold to_int32.
  rewrite Z.mod_small by (change (2 ^ 32) with (2 ^ 31 + 2 ^ 31); lia). lia.
Qed.

Lemma purged_connect (w : world) :
  purged w -> _connecting (self w) = false ->
  connect w = (w, Throw (WalletConnectionError "No burner wallet found")).
Proof.
  intros (Hk & Hc & Ht & _) Hg. unfold connect, with_self.
  rewrite Hg, Hc, Hk. simpl.
  destruct w as [n st [k g c t] ev]; simpl in *; subst. reflexivity.
Qed.

Lemma purged_sign (w : world) (tx : Transaction) :
  purged w -> signTransaction (self w) tx = Throw (WalletNotConnectedError "").
Proof.
  intros (Hk & Hc & _). unfold signTransaction. now rewrite Hc.
Qed.

Lemma purged_step (w w' : world) (a : action) :
  purged w -> _connecting (self w) = false ->
  (forall v, a <> SetItem storageKey v) ->
  step w a = Some w' -> purged w' /\ _connecting (self w') = false.
Proof.
  intros Hp Hg Ha Hs. pose proof Hp as (Hk & Hc & Ht & Hst).
  destruct a; simpl in Hs.
  - destruct (0 <=? dt); inversion Hs; subst. split; [exact Hp | exact Hg].
  - rewrite Ht in Hs. discriminate.
  - inversion Hs; subst. unfold loadBurnerWallet. rewrite Hst.
    split; [exact Hp | exact Hg].
  - inversion Hs; subst. rewrite (purged_connect _ Hp Hg). simpl.
    split; [exact Hp | exact Hg].
  - inversion Hs; subst. split; [apply clearWallet_purged | exact Hg].
  - inversion Hs; subst. split; [|exact Hg].
    unfold purged, setItem; simpl. repeat split; try assumption.
    rewrite lookup_insert_ne; [exact Hst|].
    intros ->. exact (Ha v eq_refl).
  - inversion Hs; subst. split; [|exact Hg].
    unfold purged, removeItem; simpl. repeat split; try assumption.
    apply lookup_delete_None. now right.
Qed.

Lemma purged_run (l : list action) (w w' : world) :
  purged w -> _connecting (self w) = false -> storesNoWallet l ->
  run w l = Some w' -> purged w' /\ _connecting (self w') = false.
Proof.
  revert w. induction l as [|a l IH]; intros w Hp Hg Hl Hr; simpl in Hr.
  - inversion Hr; subst. now split.
  - destruct (step w a) as [w1|] eqn:Hs; [|discriminate].
    inversion Hl as [|? ? Ha Hl']; subst.
    destruct (purged_step _ _ _ Hp Hg Ha Hs) as [Hp1 Hg1].
    exact (IH w1 Hp1 Hg1 Hl' Hr).
Qed.

Lemma setupDisconnectTimer_expired (w : world) (c : Z) :
  c + EXPIRY_TIME <= now w -> setupDisconnectTimer (Num c) w = clearWallet w.
Proof.
  intros H. unfold setupDisconnectTimer; simpl.
  replace (EXPIRY_TIME - (now w - c) <=? 0) with true
    by (symmetry; apply Z.leb_le; lia).
  reflexivity.
Qed.

(** [loadBurnerWallet] on a stored document other than [null]. *)
Lemma loadBurnerWallet_doc (w : world) (j : json) :
  localStorage w !! storageKey = Some (Doc j) -> j <> JNull ->
  loadBurnerWallet w =
    if Js.gt (Js.sub (Num (now w)) (getTime (prop "createdAt" j))) (Num EXPIRY_TIME)
    then clearWallet w
    else
      match fromSecretKey (prop "secretKey" j) with
      | None => clearWallet w
      | Some kp =>
          let w2 := setupDisconnectTimer (getTime (prop "createdAt" j))
                      (with_self w {| _keypair := Some kp;
                                      _connecting := _connecting (self w);
                                      _connected := _connected (self w);
                                      _disconnectTimer := _disconnectTimer (self w) |}) in
          if _connected (self w2) then fst (connect w2) else w2
      end.
Proof.
  intros Hst Hj. unfold loadBurnerWallet. rewrite Hst.
  destruct j; try congruence; reflexivity.
Qed.

(** Reloading a wallet whose record is past its 24 hours purges it. *)
Lemma loadBurnerWallet_expired (w : world) :
  expired w -> purged (loadBurnerWallet w).
Proof.
  intros (c & Hc & Hle). unfold createdAtOf in Hc.
  destruct (localStorage w !! storageKey) as [[s|j]|] eqn:Hst; try discriminate.
  destruct (getTime (prop "createdAt" j)) as [c'|] eqn:Hg; [|discriminate].
  inversion Hc; subst c'.
  assert (j = JNull \/ j <> JNull) as [->|Hj]
    by (destruct j; (now left) || (right; discriminate)).
  { unfold loadBurnerWallet. rewrite Hst. apply clearWallet_purged. }
  rewrite (loadBurnerWallet_doc w j Hst Hj), Hg. simpl.
  destruct (EXPIRY_TIME <? now w - c); [apply clearWallet_purged|].
  destruct (fromSecretKey _) as [kp|]; [|apply clearWallet_purged].
  rewrite setupDisconnectTimer_expired by exact Hle.
  simpl. apply clearWallet_purged.
Qed.

(** Loading a record that is not yet expired arms the timer for the moment
    it expires. *)
Lemma loadBurnerWallet_arms_timer (w : world) (j : json) (c : Z) (kp : Keypair) :
  localStorage w !! storageKey = Some (Doc j) -> j <> JNull ->
  getTime (prop "createdAt" j) = Num c ->
  fromSecretKey (prop "secretKey" j) = Some kp ->
  c <= now w < c + EXPIRY_TIME ->
  _keypair (self (loadBurnerWallet w)) = Some kp /\
  _disconnectTimer (self (loadBurnerWallet w)) = Some (c + EXPIRY_TIME).
Proof.
  intros Hst Hj Hg Hk Hc.
  rewrite (loadBurnerWallet_doc w j Hst Hj), Hg, Hk. simpl.
  assert (Hd : Z.max 0 (to_int32 (EXPIRY_TIME - (now w - c)))
               = EXPIRY_TIME - (now w - c)).
  { rewrite to_int32_small; [lia|].
    unfold EXPIRY_TIME in *. split; [lia|].
    change (2 ^ 31) with 2147483648. lia. }
  replace (EXPIRY_TIME <? now w - c) with false
    by (symmetry; apply Z.ltb_ge; lia).
  unfold setupDisconnectTimer; simpl.
  replace (EXPIRY_TIME - (now w - c) <=? 0) with false
    by (symmetry; apply Z.leb_gt; lia).
  simpl. rewrite Hd.
  destruct (_connected (self w)) eqn:Hcon; simpl.
  - unfold connect; simpl. rewrite orb_true_r; simpl.
    split; [reflexivity | f_equal; lia].
  - split; [reflexivity | f_equal; lia].
Qed.

(** C1 (as amended): expiry is enforced by the purge timer and by the check
    made when the wallet is reloaded, not inside [connect]. In every
    reachable state a connected adapter holds a keypair and a held keypair
    has a pending purge timer, which loading arms for [createdAt + 24h].
    Once that timer has run, or once [loadBurnerWallet] has run on a record
    with [now >= createdAt + 24h], no keypair is held, the adapter is not
    connected and the storage record is gone; from then on, as long as no
    new record is stored, [connect] fails with [WalletConnectionError] and
    [signTransaction] with [WalletNotConnectedError]. *)
Theorem expiry_purges_wallet (w : world) :
  reachable w ->
  (_connected (self w) = true -> is_Some (_keypair (self w))) /\
  (is_Some (_keypair (self w)) -> is_Some (_disconnectTimer (self w))) /\
  (forall j c kp,
     localStorage w !! storageKey = Some (Doc j) -> j <> JNull ->
     getTime (prop "createdAt" j) = Num c ->
     fromSecretKey (prop "secretKey" j) = Some kp ->
     c <= now w < c + EXPIRY_TIME ->
     _keypair (self (loadBurnerWallet w)) = Some kp /\
     _disconnectTimer (self (loadBurnerWallet w)) = Some (c + EXPIRY_TIME)) /\
  (forall w1,
     step w TimerFires = Some w1 \/ (expired w /\ w1 = loadBurnerWallet w) ->
     forall l w2, storesNoWallet l -> run w1 l = Some w2 ->
       purged w2 /\
       connect w2 = (w2, Throw (WalletConnectionError "No burner wallet found")) /\
       forall tx, signTransaction (self w2) tx = Throw (WalletNotConnectedError "")).
Proof.
  intros Hr. pose proof (reachable_consistent _ Hr) as (Hg & Hk & Ht).
  split; [exact Hk|]. split; [exact Ht|].
  split; [intros j c kp; apply loadBurnerWallet_arms_timer|].
  intros w1 H1 l w2 Hl Hrun.
  assert (Hp1 : purged w1 /\ _connecting (self w1) = false).
  { destruct H1 as [Hs | [He ->]].
    - split.
      + simpl in Hs. destruct (_disconnectTimer (self w)); [|discriminate].
        destruct (_ <=? _); inversion Hs. apply clearWallet_purged.
      + apply (step_consistent w w1 TimerFires); [|exact Hs].
        now apply reachable_consistent.
    - split; [now apply loadBurnerWallet_expired|].
      apply loadBurnerWallet_consistent. now apply reachable_consistent. }
  destruct Hp1 as [Hp1 Hg1].
  destruct (purged_run l w1 w2 Hp1 Hg1 Hl Hrun) as [Hp2 Hg2].
  split; [exact Hp2|]. split; [now apply purged_connect|].
  intros tx. now apply purged_sign.
Qed.

(** C2 (as amended): [connect] makes the adapter connected if and only if
    a keypair is held at that moment; it looks neither at the age of the
    wallet nor at the storage, and purges nothing. Without a keypair it
    fails with [WalletConnectionError] ("No burner wallet found") and
    changes nothing; on a connected adapter it is a no-op. *)
Theorem connect_spec (w : world) :
  reachable w ->
  (snd (connect w) = Ok tt /\ _connected (self (fst (connect w))) = true
   <-> is_Some (_keypair (self w))) /\
  (_keypair (self w) = None ->
   connect w = (w, Throw (WalletConnectionError "No burner wallet found"))) /\
  (_connected (self w) = true -> connect w = (w, Ok tt)) /\
  localStorage (fst (connect w)) = localStorage w /\
  _keypair (self (fst (connect w))) = _keypair (self w) /\
  _disconnectTimer (self (fst (connect w))) = _disconnectTimer (self w).
Proof.
  intros Hr. pose proof (reachable_consistent _ Hr) as (Hg & Hk & Ht).
  destruct w as [n st [k g c t] ev]. unfold connect, with_self in *.
  simpl in *. subst g. simpl.
  destruct c; simpl.
  - destruct (Hk eq_refl) as [kp ->].
    repeat split; eauto; try discriminate.
  - destruct k as [kp|]; simpl.
    + repeat split; eauto; try discriminate.
    + split; [split; [intros [H _]; discriminate | intros [x Hx]; discriminate]|].
      repeat split; try reflexivity; discriminate.
Qed.

Lemma promise_all_ok {E A : Type} (l : list (outcome E A)) (r : list A) :
  l = map Ok r -> promise_all l = Ok r.
Proof.
  intros ->. induction r as [|a r IH]; simpl; [reflexivity|].
  now rewrite IH.
Qed.

Lemma promise_all_first_throw {E A : Type} (pre : list A) (e : E)
    (post : list (outcome E A)) :
  promise_all (map Ok pre ++ Throw e :: post) = Throw e.
Proof.
  induction pre as [|a pre IH]; simpl; [reflexivity|]. now rewrite IH.
Qed.

(** C9 (as amended): [signTransaction] fails with [WalletNotConnectedError]
    whenever the adapter is not connected or holds no keypair, and also when
    [partialSign] itself throws, whose error it wraps in the same class;
    otherwise it returns the transaction as [partialSign] leaves it.
    [signAllTransactions] signs every element and returns all of them, or
    fails with the error of the first element that failed. *)
Theorem sign_spec (a : adapter) (tx : Transaction) :
  (_connected a = false \/ _keypair a = None ->
   signTransaction a tx = Throw (WalletNotConnectedError "")) /\
  (forall kp, _connected a = true -> _keypair a = Some kp ->
   signTransaction a tx =
     match partialSign tx kp with
     | Ok tx' => Ok tx'
     | Throw msg => Throw (WalletNotConnectedError msg)
     end) /\
  (forall txs signed,
     map (signTransaction a) txs = map Ok signed ->
     signAllTransactions a txs = Ok signed) /\
  (forall pre signed bad post e,
     map (signTransaction a) pre = map Ok signed ->
     signTransaction a bad = Throw e ->
     signAllTransactions a (pre ++ bad :: post) = Throw e).
Proof.
  repeat split.
  - intros [H|H]; unfold signTransaction; rewrite H; [reflexivity|].
    now destruct (_connected a).
  - intros kp Hc Hk. unfold signTransaction. now rewrite Hc, Hk.
  - intros txs signed H. unfold signAllTransactions. now apply promise_all_ok.
  - intros pre signed bad post e Hpre Hbad. unfold signAllTransactions.
    rewrite map_app. simpl. rewrite Hpre, Hbad.
    apply promise_all_first_throw.
Qed.

(** C10 (as amended): [getTimeRemaining] only reads, and what it reads is
    the persisted record and the clock, not the fields of the adapter: its
    value is the same whatever keypair is loaded or not. Over a persisted
    record created at [c] it returns [max(0, c + 24h - now)]; with no
    record persisted it returns 0. As long as the record stays the same, a
    later call never returns more than an earlier one, and the value is 0
    exactly from [c + 24h] on. *)
Theorem getTimeRemaining_spec (w w' : world) (j : json) (c : Z) :
  localStorage w !! storageKey = Some (Doc j) -> j <> JNull ->
  getTime (prop "createdAt" j) = Num c ->
  localStorage w' = localStorage w -> now w <= now w' ->
  getTimeRemaining w = Ok (Num (Z.max 0 (c + EXPIRY_TIME - now w))) /\
  getTimeRemaining w' = Ok (Num (Z.max 0 (c + EXPIRY_TIME - now w'))) /\
  Z.max 0 (c + EXPIRY_TIME - now w') <= Z.max 0 (c + EXPIRY_TIME - now w) /\
  (getTimeRemaining w = Ok (Num 0) <-> c + EXPIRY_TIME <= now w) /\
  (forall w0, localStorage w0 !! storageKey = None ->
              getTimeRemaining w0 = Ok (Num 0)) /\
  (forall w0 a, getTimeRemaining (with_self w0 a) = getTimeRemaining w0).
Proof.
  intros Hst Hj Hg Hsame Hle.
  assert (Hget : forall v, localStorage v !! storageKey = Some (Doc j) ->
            getTimeRemaining v = Ok (Num (Z.max 0 (c + EXPIRY_TIME - now v)))).
  { intros v Hv. unfold getTimeRemaining. rewrite Hv.
    destruct j; try congruence; simpl in *; rewrite Hg; simpl;
      do 2 f_equal; lia. }
  split; [now apply Hget|].
  split; [apply Hget; now rewrite Hsame|].
  split; [lia|].
  split.
  - rewrite (Hget w Hst). split.
    + intros H. inversion H. lia.
    + intros H. do 2 f_equal. lia.
  - split.
    + intros w0 H0. unfold getTimeRemaining. now rewrite H0.
    + reflexivity.
Qed.

(** What [loadBurnerWallet] does with a stored value that is not a usable
    wallet record: it purges it and nothing is thrown. *)
Lemma loadBurnerWallet_recovers (w : world) (it : item) :
  localStorage w !! storageKey = Some it -> nonempty it = true ->
  corrupt it -> purged (loadBurnerWallet w).
Proof.
  intros Hst Hne Hc. unfold corrupt in Hc.
  destruct (JSON_parse it) as [j|] eqn:Hp.
  - destruct it as [s|j']; [discriminate|]. inversion Hp; subst j'.
    assert (j = JNull \/ j <> JNull) as [->|Hj]
      by (destruct j; (now left) || (right; discriminate)).
    + unfold loadBurnerWallet. rewrite Hst. apply clearWallet_purged.
    + rewrite (loadBurnerWallet_doc w j Hst Hj).
      assert (Hk : fromSecretKey (prop "secretKey" j) = None)
        by (destruct j; congruence).
      rewrite Hk. destruct (Js.gt _ _); apply clearWallet_purged.
  - unfold loadBurnerWallet. rewrite Hst, Hne, Hp. apply clearWallet_purged.
Qed.


End WalletProperties.

(** ** The wallet properties at work *)

Section WalletExamples.
Import BurnerWallet Demo.

Lemma reachable_fresh : reachable fresh.
Proof. apply reachable_construct. Qed.

Lemma reachable_elapse (dt : Z) (w : world) :
  0 <= dt -> reachable w -> reachable (elapse dt w).
Proof.
  intros H Hr. apply (reachable_step w (Tick dt)); [exact Hr|].
  simpl. now replace (0 <=? dt) with true by (symmetry; apply Z.leb_le; lia).
Qed.

Lemma reachable_setItem (k : string) (v : item) (w : world) :
  reachable w -> reachable (setItem k v w).
Proof. intros Hr. now apply (reachable_step w (SetItem k v)). Qed.

Example fresh_holds_keypair :
  _keypair (self fresh) = Some key /\
  _disconnectTimer (self fresh) = Some 86400000 /\
  _connected (self fresh) = false.
Proof. vm_compute. repeat split. Qed.

Example young_time_remaining : getTimeRemaining young = Ok (Num 3600000).
Proof. vm_compute. reflexivity. Qed.

Example overdue_time_remaining : getTimeRemaining overdue = Ok (Num 0).
Proof. vm_compute. reflexivity. Qed.

(** The purge timer of [due] runs, a little time passes, [connect] is
    called: the wallet is gone and [connect] fails. *)
Lemma expiry_purges_wallet_witness :
  let w2 := fst (connect (elapse 5 (clearWallet due))) in
  reachable due /\
  step due TimerFires = Some (clearWallet due) /\
  storesNoWallet [Tick 5; CallConnect] /\
  run (clearWallet due) [Tick 5; CallConnect] = Some w2 /\
  purged w2 /\
  connect w2 = (w2, Throw (WalletConnectionError "No burner wallet found")) /\
  signTransaction (self w2) transfer = Throw (WalletNotConnectedError "").
Proof.
  intros w2.
  assert (Hr : reachable due)
    by (apply reachable_elapse; [lia | apply reachable_fresh]).
  assert (Hs : step due TimerFires = Some (clearWallet due)) by reflexivity.
  assert (Hl : storesNoWallet [Tick 5; CallConnect])
    by (repeat constructor; intros v Hv; discriminate Hv).
  assert (Hrun : run (clearWallet due) [Tick 5; CallConnect] = Some w2)
    by reflexivity.
  destruct (expiry_purges_wallet due Hr) as (_ & _ & _ & H).
  destruct (H (clearWallet due) (or_introl Hs) [Tick 5; CallConnect] w2 Hl Hrun)
    as (Hp & Hc & Hsig).
  exact (conj Hr (conj Hs (conj Hl (conj Hrun (conj Hp (conj Hc (Hsig transfer))))))).
Defined.

(** C1, as stated, fails. More than 24 hours after creation, while the
    purge timer is due but its callback has not run yet, [connect] succeeds,
    the adapter signs, and the record is still in storage. And when the
    record was stored after the adapter was constructed, no timer exists at
    all and the record stays in storage past its 24 hours. *)
Lemma expired_wallet_still_usable :
  (reachable overdue /\ expired overdue /\
   snd (connect overdue) = Ok tt /\
   (exists signed, signTransaction (self (fst (connect overdue))) transfer = Ok signed) /\
   is_Some (localStorage (fst (connect overdue)) !! storageKey)) /\
  (reachable unloaded /\ expired unloaded /\
   _disconnectTimer (self unloaded) = None /\
   is_Some (localStorage unloaded !! storageKey)).
Proof.
  split.
  - split; [apply reachable_elapse; [lia | apply reachable_fresh]|].
    split; [exists 0; split; [vm_compute; reflexivity | vm_compute; discriminate]|].
    split; [vm_compute; reflexivity|].
    split; [eexists; vm_compute; reflexivity|].
    exists (Doc record0); reflexivity.
  - split; [apply reachable_elapse; [lia|]; apply reachable_setItem;
            apply reachable_construct|].
    split; [exists 0; split; [vm_compute; reflexivity | vm_compute; discriminate]|].
    split; [vm_compute; reflexivity|].
    exists (Doc record0); reflexivity.
Qed.

(** [connect] on the adapter that has just loaded its wallet. *)
Lemma connect_spec_witness :
  reachable fresh /\
  snd (connect fresh) = Ok tt /\
  _connected (self (fst (connect fresh))) = true /\
  localStorage (fst (connect fresh)) = localStorage fresh.
Proof.
  split; [apply reachable_fresh|].
  destruct (connect_spec fresh reachable_fresh) as ([_ H] & _ & _ & Hst & _).
  destruct H as [H1 H2]; [exists key; reflexivity|].
  split; [exact H1|]. split; [exact H2 | exact Hst].
Defined.

(** C2, as stated, fails. At the very millisecond the wallet expires
    ([now = createdAt + 24h]) and before the timer callback has run,
    [connect] succeeds on the expired wallet and purges nothing. *)
Lemma connect_succeeds_on_expired_wallet :
  reachable due /\ expired due /\
  snd (connect due) = Ok tt /\
  _connected (self (fst (connect due))) = true /\
  localStorage (fst (connect due)) !! storageKey = Some (Doc record0).
Proof.
  split; [apply reachable_elapse; [lia | apply reachable_fresh]|].
  split; [exists 0; split; [vm_compute; reflexivity | vm_compute; discriminate]|].
  split; [vm_compute; reflexivity|].
  split; [vm_compute; reflexivity | reflexivity].
Qed.

(** The connected adapter signs a transaction that names its key. *)
Lemma sign_spec_witness :
  _connected (self (fst (connect fresh))) = true /\
  _keypair (self (fst (connect fresh))) = Some key /\
  signTransaction (self (fst (connect fresh))) transfer
  = Ok {| recentBlockhash := recentBlockhash transfer;
          signers := signers transfer;
          signatures := ["77777777777777777777777777777777"%string] |}.
Proof.
  assert (Hc : _connected (self (fst (connect fresh))) = true)
    by (vm_compute; reflexivity).
  assert (Hk : _keypair (self (fst (connect fresh))) = Some key)
    by (vm_compute; reflexivity).
  split; [exact Hc|]. split; [exact Hk|].
  destruct (sign_spec (self (fst (connect fresh))) transfer) as (_ & H & _).
  rewrite (H key Hc Hk). vm_compute. reflexivity.
Defined.

(** C9, as stated, fails. A connected adapter is asked to sign a
    transaction that has no recent blockhash: [partialSign] throws, and
    [signTransaction] fails with [WalletNotConnectedError] although the
    adapter is connected. *)
Lemma sign_fails_while_connected :
  _connected (self (fst (connect fresh))) = true /\
  signTransaction (self (fst (connect fresh))) unfinished
  = Throw (WalletNotConnectedError "Transaction recentBlockhash required").
Proof. split; vm_compute; reflexivity. Qed.

(** The time remaining 23 hours and just over 24 hours after creation. *)
Lemma getTimeRemaining_spec_witness :
  localStorage young !! storageKey = Some (Doc record0) /\
  getTime (prop "createdAt" record0) = Num 0 /\
  now young <= now overdue /\
  getTimeRemaining young = Ok (Num (Z.max 0 (0 + EXPIRY_TIME - now young))) /\
  getTimeRemaining overdue = Ok (Num (Z.max 0 (0 + EXPIRY_TIME - now overdue))).
Proof.
  assert (H1 : localStorage young !! storageKey = Some (Doc record0))
    by reflexivity.
  assert (H2 : record0 <> JNull) by discriminate.
  assert (H3 : getTime (prop "createdAt" record0) = Num 0)
    by (vm_compute; reflexivity).
  assert (H4 : localStorage overdue = localStorage young) by reflexivity.
  assert (H5 : now young <= now overdue) by (vm_compute; discriminate).
  destruct (getTimeRemaining_spec young overdue record0 0 H1 H2 H3 H4 H5)
    as (Ha & Hb & _).
  split; [exact H1|]. split; [exact H3|]. split; [exact H5|].
  split; [exact Ha | exact Hb].
Defined.

(** C10, as stated, fails. An adapter that has no wallet loaded (it was
    constructed over an empty storage and the record was stored afterwards)
    returns 23 hours, not 0; and an adapter whose wallet is loaded, with an
    hour to go on its purge timer, returns 0 once the record is removed
    from the storage. *)
Lemma getTimeRemaining_ignores_loaded_wallet :
  (reachable Cases.stray /\
   _keypair (self Cases.stray) = None /\
   getTimeRemaining Cases.stray = Ok (Num 82800000)) /\
  (reachable Cases.orphaned /\
   _keypair (self Cases.orphaned) = Some key /\
   _disconnectTimer (self Cases.orphaned) = Some 86400000 /\
   now Cases.orphaned = 82800000 /\
   getTimeRemaining Cases.orphaned = Ok (Num 0)).
Proof.
  split.
  - split; [apply reachable_elapse; [lia|]; apply reachable_setItem;
            apply reachable_construct|].
    split; vm_compute; reflexivity.
  - split.
    { apply (reachable_step young (RemoveItem storageKey)); [|reflexivity].
      apply reachable_elapse; [lia | apply reachable_fresh]. }
    repeat split; vm_compute; reflexivity.
Qed.

(** C7: with a text that is not JSON in the storage slot,
    [getTimeRemaining] throws the SyntaxError of [JSON.parse] to its caller
    and leaves the bad record in place, where [loadBurnerWallet] on the same
    state purges the record and throws nothing. *)
Theorem getTimeRemaining_throws_on_corrupt_record :
  reachable garbled /\
  localStorage garbled !! storageKey = Some (Text "{oops") /\
  getTimeRemaining garbled = Throw SyntaxError /\
  purged (loadBurnerWallet garbled).
Proof.
  split; [apply reachable_setItem, reachable_elapse;
          [lia | apply reachable_fresh]|].
  split; [reflexivity|].
  split; [reflexivity|].
  apply (loadBurnerWallet_recovers garbled (Text "{oops")).
  - reflexivity.
  - reflexivity.
  - exact I.
Qed.



End WalletExamples.

(** * Properties of the rate limiter and of the retry loop *)

Section PortfolioProperties.
Import Portfolio.

Variable MAX_REQUESTS_PER_WINDOW : Z.
Variable wake : Z -> Z -> Z.
Variable T : Type.

(** The limit is a positive number, a timer never runs before it is due,
    and the clock has moved on when its callback runs. *)
Hypothesis max_positive : 1 <= MAX_REQUESTS_PER_WINDOW.
Hypothesis wake_due : forall t d, t + d <= wake t d.
Hypothesis wake_later : forall t d, t < wake t d.

Local Abbreviation canMakeRequest := (canMakeRequest MAX_REQUESTS_PER_WINDOW).
Local Abbreviation waitForRateLimit := (waitForRateLimit MAX_REQUESTS_PER_WINDOW wake).
Local Abbreviation windowOk := (windowOk MAX_REQUESTS_PER_WINDOW).
Local Abbreviation parked := (parked wake).
Local Abbreviation retryLoop := (@retryLoop MAX_REQUESTS_PER_WINDOW wake T).
Local Abbreviation fetchWithRetry := (@fetchWithRetry MAX_REQUESTS_PER_WINDOW wake T).

Lemma prune_length (now : Z) (ts : list Z) :
  (length (prune now ts) <= length ts)%nat.
Proof.
  induction ts as [|t ts IH]; simpl; [lia|].
  destruct (t <? now - REQUEST_WINDOW); simpl; lia.
Qed.

Lemma prune_Forall (P : Z -> Prop) (now : Z) (ts : list Z) :
  Forall P ts -> Forall P (prune now ts).
Proof.
  induction 1 as [|t ts Ht Hts IH]; simpl; [constructor|].
  destruct (t <? now - REQUEST_WINDOW); [exact IH | now constructor].
Qed.

(** What is left after pruning starts with a time inside the window. *)
Lemma prune_head (now t : Z) (ts rest : list Z) :
  prune now ts = t :: rest -> now - REQUEST_WINDOW <= t.
Proof.
  induction ts as [|t' ts IH]; simpl; [discriminate|].
  destruct (t' <? now - REQUEST_WINDOW) eqn:E; [exact IH|].
  intros H. inversion H; subst. now apply Z.ltb_ge.
Qed.

Lemma prune_keep (now t : Z) (rest : list Z) :
  now - REQUEST_WINDOW <= t -> prune now (t :: rest) = t :: rest.
Proof.
  intros H. simpl.
  now replace (t <? now - REQUEST_WINDOW) with false
    by (symmetry; apply Z.ltb_ge; lia).
Qed.

Lemma prune_drop (now t : Z) (rest : list Z) :
  t < now - REQUEST_WINDOW -> prune now (t :: rest) = prune now rest.
Proof.
  intros H. simpl.
  now replace (t <? now - REQUEST_WINDOW) with true
    by (symmetry; apply Z.ltb_lt; lia).
Qed.

Lemma waitForRateLimit_granted (fuel : nat) (s : state) :
  Z.of_nat (length (prune (clock s) (requestTimestamps s))) < MAX_REQUESTS_PER_WINDOW ->
  waitForRateLimit (S fuel) s = Some (granted s).
Proof.
  intros H. simpl.
  now replace (_ <? _) with true by (symmetry; apply Z.ltb_lt; exact H).
Qed.

Lemma waitForRateLimit_parked (fuel : nat) (s : state) :
  MAX_REQUESTS_PER_WINDOW <= Z.of_nat (length (prune (clock s) (requestTimestamps s))) ->
  waitForRateLimit (S fuel) s = waitForRateLimit fuel (parked s).
Proof.
  intros H. simpl.
  now replace (_ <? _) with false by (symmetry; apply Z.ltb_ge; exact H).
Qed.

Lemma granted_windowOk (s : state) :
  Z.of_nat (length (prune (clock s) (requestTimestamps s))) < MAX_REQUESTS_PER_WINDOW ->
  windowOk s -> windowOk (granted s).
Proof.
  intros H [_ Hpast]. split; simpl.
  - rewrite length_app. simpl. lia.
  - apply Forall_app. split; [now apply prune_Forall|].
    constructor; [lia | constructor].
Qed.

Lemma waitForRateLimit_fuel (n m : nat) (s s' : state) :
  waitForRateLimit n s = Some s' -> (n <= m)%nat ->
  waitForRateLimit m s = Some s'.
Proof.
  revert m s. induction n as [|n IH]; intros m s H Hle; [discriminate|].
  destruct m as [|m]; [lia|]. simpl in *.
  destruct (_ <? _); [exact H|]. apply IH; [exact H | lia].
Qed.

(** A caller that is not let through sleeps until the oldest request is a
    full window old. *)
Lemma parked_facts (s : state) (t1 : Z) (rest : list Z) :
  windowOk s ->
  prune (clock s) (requestTimestamps s) = t1 :: rest ->
  let d := REQUEST_WINDOW - (clock s - t1) in
  0 <= d /\
  parked s = {| clock := wake (clock s) d; requestTimestamps := t1 :: rest;
                waits := waits s ++ [Num d]; backoffs := backoffs s;
                attempts := attempts s |} /\
  t1 + REQUEST_WINDOW <= clock (parked s) /\
  clock s < clock (parked s) /\
  windowOk (parked s).
Proof.
  intros [Hlen Hpast] Hp d.
  pose proof (prune_head _ _ _ _ Hp) as Hin.
  assert (Ht1 : t1 <= clock s).
  { pose proof (prune_Forall _ (clock s) _ Hpast) as H. rewrite Hp in H.
    now inversion H. }
  assert (Hd : 0 <= d <= REQUEST_WINDOW) by (unfold d; lia).
  assert (Htd : timer_delay (Num d) = d).
  { simpl. rewrite to_int32_small; [lia|].
    unfold REQUEST_WINDOW in Hd. change (2 ^ 31) with 2147483648. lia. }
  assert (Heq : parked s =
    {| clock := wake (clock s) d; requestTimestamps := t1 :: rest;
       waits := waits s ++ [Num d]; backoffs := backoffs s;
       attempts := attempts s |}).
  { unfold Portfolio.parked. rewrite Hp. cbn [oldestOf Js.sub].
    fold d. now rewrite Htd. }
  split; [lia|]. split; [exact Heq|]. rewrite Heq. cbn [clock].
  pose proof (wake_due (clock s) d). pose proof (wake_later (clock s) d).
  split; [unfold d in *; lia|]. split; [lia|].
  split; cbn [requestTimestamps clock].
  - pose proof (prune_length (clock s) (requestTimestamps s)) as Hl.
    rewrite Hp in Hl. lia.
  - pose proof (prune_Forall _ (clock s) _ Hpast) as H'. rewrite Hp in H'.
    eapply Forall_impl; [exact H'|]. intros x Hx. simpl in Hx. lia.
Qed.

(** What a call of [waitForRateLimit] does, from a window in order. *)
Lemma waitForRateLimit_returns (fuel : nat) (s : state) :
  (3 <= fuel)%nat -> windowOk s ->
  exists s',
    waitForRateLimit fuel s = Some s' /\ windowOk s' /\
    backoffs s' = backoffs s /\ attempts s' = attempts s /\
    clock s <= clock s' /\
    (exists kept, requestTimestamps s' = kept ++ [clock s'] /\
                  Z.of_nat (length kept) < MAX_REQUESTS_PER_WINDOW) /\
    (fst (canMakeRequest s) = true <->
     Z.of_nat (length (prune (clock s) (requestTimestamps s))) < MAX_REQUESTS_PER_WINDOW) /\
    (fst (canMakeRequest s) = true -> s' = granted s) /\
    (fst (canMakeRequest s) = false ->
     exists t1 rest,
       prune (clock s) (requestTimestamps s) = t1 :: rest /\
       0 <= REQUEST_WINDOW - (clock s - t1) /\
       (waits s' = waits s ++ [Num (REQUEST_WINDOW - (clock s - t1))] \/
        waits s' = waits s ++ [Num (REQUEST_WINDOW - (clock s - t1)); Num 0]) /\
       t1 + REQUEST_WINDOW < clock s').
Proof.
  intros Hfuel Hok.
  assert (Hcan : fst (canMakeRequest s) = true <->
    Z.of_nat (length (prune (clock s) (requestTimestamps s))) < MAX_REQUESTS_PER_WINDOW)
    by (unfold Portfolio.canMakeRequest; simpl; apply Z.ltb_lt).
  destruct (fst (canMakeRequest s)) eqn:Hc.
  - (* let through at once *)
    assert (Hlt : Z.of_nat (length (prune (clock s) (requestTimestamps s)))
                  < MAX_REQUESTS_PER_WINDOW) by now apply Hcan.
    exists (granted s).
    split; [apply (waitForRateLimit_fuel 1); [now apply waitForRateLimit_granted | lia]|].
    split; [now apply granted_windowOk|].
    split; [reflexivity|]. split; [reflexivity|]. split; [simpl; lia|].
    split; [exists (prune (clock s) (requestTimestamps s)); now split|].
    split; [tauto|]. split; [reflexivity | discriminate].
  - (* parked *)
    assert (Hge : MAX_REQUESTS_PER_WINDOW
                  <= Z.of_nat (length (prune (clock s) (requestTimestamps s)))).
    { destruct (Z_lt_le_dec (Z.of_nat (length (prune (clock s) (requestTimestamps s))))
                  MAX_REQUESTS_PER_WINDOW) as [H|H]; [|exact H].
      apply Hcan in H. discriminate. }
    destruct (prune (clock s) (requestTimestamps s)) as [|t1 rest] eqn:Hp;
      [simpl in Hge; lia|].
    destruct (parked_facts s t1 rest Hok Hp) as (Hd & Heq & Hdue & Hlater & Hok1).
    set (d := REQUEST_WINDOW - (clock s - t1)) in *.
    set (s1 := parked s) in *.
    assert (Hpark : forall n, waitForRateLimit (S n) s = waitForRateLimit n s1).
    { intros n. apply waitForRateLimit_parked. now rewrite Hp. }
    assert (Hts1 : requestTimestamps s1 = t1 :: rest) by now rewrite Heq.
    assert (Hw1 : waits s1 = waits s ++ [Num d]) by now rewrite Heq.
    assert (Hb1 : backoffs s1 = backoffs s) by now rewrite Heq.
    assert (Ha1 : attempts s1 = attempts s) by now rewrite Heq.
    assert (Hlen : Z.of_nat (length rest) < MAX_REQUESTS_PER_WINDOW).
    { destruct Hok1 as [Hl _]. rewrite Hts1 in Hl. simpl in Hl. lia. }
    destruct (Z_lt_le_dec t1 (clock s1 - REQUEST_WINDOW)) as [Hold|Hkeep].
    + (* the oldest request has left the window *)
      assert (Hlt1 : Z.of_nat (length (prune (clock s1) (requestTimestamps s1)))
                     < MAX_REQUESTS_PER_WINDOW).
      { rewrite Hts1, prune_drop by exact Hold.
        pose proof (prune_length (clock s1) rest). lia. }
      exists (granted s1).
      split; [apply (waitForRateLimit_fuel 2); [|lia]; rewrite Hpark;
              now apply waitForRateLimit_granted|].
      split; [now apply granted_windowOk|].
      split; [exact Hb1|]. split; [exact Ha1|].
      split; [change (clock s <= clock s1); lia|].
      split; [exists (prune (clock s1) (requestTimestamps s1)); now split|].
      split; [split; [discriminate | intros H; apply Hcan in H; discriminate]|].
      split; [discriminate|]. intros _.
      exists t1, rest. split; [reflexivity|]. split; [exact Hd|].
      split; [left; exact Hw1 | change (t1 + REQUEST_WINDOW < clock s1); lia].
    + (* woken on the very millisecond the timer was due *)
      assert (Hp1 : prune (clock s1) (requestTimestamps s1) = t1 :: rest)
        by (rewrite Hts1; now apply prune_keep).
      destruct (parked_facts s1 t1 rest Hok1 Hp1) as (_ & Heq2 & _ & Hlater2 & Hok2).
      replace (REQUEST_WINDOW - (clock s1 - t1)) with 0 in Heq2 by lia.
      set (s2 := parked s1) in *.
      assert (Hts2 : requestTimestamps s2 = t1 :: rest) by now rewrite Heq2.
      assert (Hlt2 : Z.of_nat (length (prune (clock s2) (requestTimestamps s2)))
                     < MAX_REQUESTS_PER_WINDOW).
      { rewrite Hts2, prune_drop by lia.
        pose proof (prune_length (clock s2) rest). lia. }
      exists (granted s2).
      split.
      { apply (waitForRateLimit_fuel 3); [|lia]. rewrite Hpark.
        rewrite (waitForRateLimit_parked 1 s1) by (rewrite Hp1; simpl in *; lia).
        now apply waitForRateLimit_granted. }
      split; [now apply granted_windowOk|].
      split; [change (backoffs s2 = backoffs s); rewrite Heq2; exact Hb1|].
      split; [change (attempts s2 = attempts s); rewrite Heq2; exact Ha1|].
      split; [change (clock s <= clock s2); lia|].
      split; [exists (prune (clock s2) (requestTimestamps s2)); now split|].
      split; [split; [discriminate | intros H; apply Hcan in H; discriminate]|].
      split; [discriminate|]. intros _.
      exists t1, rest. split; [reflexivity|]. split; [exact Hd|].
      split; [|change (t1 + REQUEST_WINDOW < clock s2); lia].
      right. change (waits s2 = waits s ++ [Num d; Num 0]).
      rewrite Heq2. cbn [waits]. rewrite Hw1.
      now rewrite <- app_assoc.
Qed.






Local Abbreviation backedOff := (backedOff wake).

(** One iteration of the loop of [fetchWithRetry]. *)
Lemma retryLoop_step (fuel : nat) (retries delay i took : Z)
    (c : outcome jserror T) (rest : list (call T)) (s s1 : state) :
  i < retries -> waitForRateLimit fuel s = Some s1 ->
  retryLoop fuel retries delay i ((took, c) :: rest) s =
    match c with
    | Ok v => Some (Ok v, invoked took s1)
    | Throw e =>
        if (i =? retries - 1) && negb (is429 e)
        then Some (Throw e, invoked took s1)
        else retryLoop fuel retries delay (nextIndex i e) rest
               (backedOff delay i e (invoked took s1))
    end.
Proof.
  intros Hi Hw. cbn [Portfolio.retryLoop].
  replace (retries <=? i) with false by (symmetry; apply Z.leb_gt; lia).
  rewrite Hw. destruct c as [v|e]; [reflexivity|].
  destruct ((i =? retries - 1) && negb (is429 e)); [reflexivity|].
  unfold nextIndex, Portfolio.backedOff, invoked, sleep. cbn [clock requestTimestamps waits backoffs attempts].
  destruct (is429 e); reflexivity.
Qed.

Lemma retryLoop_done (fuel : nat) (retries delay i : Z)
    (script : list (call T)) (s : state) :
  retries <= i ->
  retryLoop fuel retries delay i script s = Some (Throw maximumRetriesExceeded, s).
Proof.
  intros Hi. destruct script as [|[took c] rest]; cbn [Portfolio.retryLoop];
    now replace (retries <=? i) with true by (symmetry; apply Z.leb_le; lia).
Qed.

Lemma invoked_windowOk (took : Z) (s : state) :
  0 <= took -> windowOk s -> windowOk (invoked took s).
Proof.
  intros Ht [Hl Hp]. split; [exact Hl|]. simpl.
  eapply Forall_impl; [exact Hp|]. intros x Hx. simpl in Hx. lia.
Qed.

Lemma backedOff_windowOk (delay i : Z) (e : jserror) (s : state) :
  windowOk s -> windowOk (backedOff delay i e s).
Proof.
  intros [Hl Hp]. unfold Portfolio.backedOff, Portfolio.windowOk.
  cbn [clock requestTimestamps].
  destruct (is429 e); [split; [simpl; lia | constructor]|].
  split; [exact Hl|].
  eapply Forall_impl; [exact Hp|]. intros x Hx. simpl in Hx.
  pose proof (wake_later (clock s) (timer_delay (Num (currentDelay delay i e)))).
  lia.
Qed.





(** The test the [catch] block makes on the message of the error. *)
Local Abbreviation saysRateLimit e :=
  (includes "429" (message e) || includes "Too Many Requests" (message e)).

(** C8 (as amended): the delay that follows a failure is at most
    [MAX_DELAY] and is computed from the loop variable [i], not from the
    number of the attempt. A failure that is retried in the iteration with
    loop variable [i] is followed by exactly [min(delay * 2^i, MAX_DELAY)]
    when its message says neither "429" nor "Too Many Requests", and the
    next iteration has [i + 1]; when the message says so it is followed by
    [MAX_DELAY], [requestTimestamps] is emptied and the next iteration has
    [max(0, i - 1) + 1]. So a run whose first two calls fail with other
    errors sleeps [min(delay, MAX_DELAY)] then [min(delay * 2, MAX_DELAY)],
    and a run whose first two calls are rate limited sleeps [MAX_DELAY]
    twice and, after a third failure of another kind,
    [min(delay * 2, MAX_DELAY)]. *)
Theorem backoff_spec (fuel : nat) (retries delay : Z) (s : state) :
  (3 <= fuel)%nat -> windowOk s ->
  (forall i e, currentDelay delay i e <= MAX_DELAY) /\
  (forall i e took rest,
     0 <= i < retries -> saysRateLimit e = true \/ i <> retries - 1 ->
     exists s1 s2,
       waitForRateLimit fuel s = Some s1 /\
       retryLoop fuel retries delay i ((took, Throw e) :: rest) s =
         retryLoop fuel retries delay
           (if saysRateLimit e then Z.max 0 (i - 1) + 1 else i + 1) rest s2 /\
       backoffs s2 =
         backoffs s ++ [if saysRateLimit e then MAX_DELAY
                        else Z.min (delay * 2 ^ i) MAX_DELAY] /\
       requestTimestamps s2 =
         (if saysRateLimit e then [] else requestTimestamps s1) /\
       attempts s2 = S (attempts s) /\
       (0 <= delay ->
        clock s1 + took
        + (if saysRateLimit e then MAX_DELAY else Z.min (delay * 2 ^ i) MAX_DELAY)
        <= clock s2)) /\
  (forall (k1 : Z) (e1 : jserror) (k2 : Z) (e2 : jserror) (k3 : Z) (v : T),
     3 <= retries ->
     saysRateLimit e1 = false -> saysRateLimit e2 = false ->
     0 <= k1 -> 0 <= k2 -> 0 <= k3 ->
     exists s',
       fetchWithRetry fuel [(k1, Throw e1); (k2, Throw e2); (k3, Ok v)]
         retries delay s = Some (Ok v, s') /\
       backoffs s' = backoffs s ++ [Z.min (delay * 2 ^ 0) MAX_DELAY;
                                    Z.min (delay * 2 ^ 1) MAX_DELAY] /\
       attempts s' = (attempts s + 3)%nat) /\
  (forall (k1 : Z) (e1 : jserror) (k2 : Z) (e2 : jserror) (k3 : Z) (e3 : jserror)
          (k4 : Z) (v : T),
     3 <= retries ->
     saysRateLimit e1 = true -> saysRateLimit e2 = true ->
     saysRateLimit e3 = false ->
     0 <= k1 -> 0 <= k2 -> 0 <= k3 -> 0 <= k4 ->
     exists s',
       fetchWithRetry fuel
         [(k1, Throw e1); (k2, Throw e2); (k3, Throw e3); (k4, Ok v)]
         retries delay s = Some (Ok v, s') /\
       backoffs s' = backoffs s ++ [MAX_DELAY; MAX_DELAY;
                                    Z.min (delay * 2 ^ 1) MAX_DELAY] /\
       attempts s' = (attempts s + 4)%nat).
Proof.
  intros Hfuel Hok.
  (* one failure that is retried *)
  assert (Hstep : forall i e took rest (s0 : state),
    windowOk s0 -> 0 <= took ->
    0 <= i < retries -> is429 e = true \/ i <> retries - 1 ->
    exists s1,
      waitForRateLimit fuel s0 = Some s1 /\
      retryLoop fuel retries delay i ((took, Throw e) :: rest) s0 =
        retryLoop fuel retries delay (nextIndex i e) rest
          (backedOff delay i e (invoked took s1)) /\
      windowOk (backedOff delay i e (invoked took s1)) /\
      backoffs (backedOff delay i e (invoked took s1)) =
        backoffs s0 ++ [currentDelay delay i e] /\
      attempts (backedOff delay i e (invoked took s1)) = S (attempts s0)).
  { intros i e took rest s0 Hok0 Htook Hi Hretry.
    destruct (waitForRateLimit_returns fuel s0 Hfuel Hok0)
      as (s1 & Hw & Hok1 & Hb1 & Ha1 & _).
    exists s1. split; [exact Hw|].
    rewrite (retryLoop_step fuel retries delay i took (Throw e) rest s0 s1)
      by (lia || exact Hw).
    assert (Hnot : (i =? retries - 1) && negb (is429 e) = false).
    { destruct Hretry as [H|H]; [rewrite H; apply andb_false_r|].
      apply andb_false_iff. left. now apply Z.eqb_neq. }
    rewrite Hnot. split; [reflexivity|].
    split; [apply backedOff_windowOk; now apply invoked_windowOk|].
    cbn [Portfolio.backedOff invoked backoffs attempts].
    now rewrite Hb1, Ha1. }
  (* the last call succeeds *)
  assert (Hlast : forall i took (v : T) (s0 : state),
    windowOk s0 -> i < retries ->
    exists s1,
      retryLoop fuel retries delay i [(took, Ok v)] s0 = Some (Ok v, invoked took s1) /\
      backoffs s1 = backoffs s0 /\ attempts s1 = attempts s0).
  { intros i took v s0 Hok0 Hi.
    destruct (waitForRateLimit_returns fuel s0 Hfuel Hok0)
      as (s1 & Hw & _ & Hb1 & Ha1 & _).
    exists s1.
    rewrite (retryLoop_step fuel retries delay i took (Ok v) [] s0 s1)
      by (lia || exact Hw).
    now split. }
  split; [|split; [|split]].
  - intros i e. unfold currentDelay. destruct (is429 e); lia.
  - intros i e took rest Hi Hretry.
    change (saysRateLimit e) with (is429 e) in *.
    destruct (waitForRateLimit_returns fuel s Hfuel Hok) as (s1 & Hw & _ & Hb1 & Ha1 & _).
    exists s1, (backedOff delay i e (invoked took s1)). split; [exact Hw|].
    rewrite (retryLoop_step fuel retries delay i took (Throw e) rest s s1)
      by (lia || exact Hw).
    assert (Hnot : (i =? retries - 1) && negb (is429 e) = false).
    { destruct Hretry as [H|H]; [rewrite H; apply andb_false_r|].
      apply andb_false_iff. left. now apply Z.eqb_neq. }
    rewrite Hnot. split; [reflexivity|].
    unfold Portfolio.backedOff, currentDelay.
    cbn [backoffs requestTimestamps clock invoked attempts]. rewrite Hb1, Ha1.
    split; [reflexivity|]. split; [reflexivity|]. split; [reflexivity|].
    intros Hdelay.
    set (d := if is429 e then MAX_DELAY else Z.min (delay * 2 ^ i) MAX_DELAY).
    assert (Hd : 0 <= d <= MAX_DELAY).
    { unfold d, MAX_DELAY. destruct (is429 e); [lia|].
      assert (0 <= 2 ^ i) by (apply Z.pow_nonneg; lia). nia. }
    assert (Htd : timer_delay (Num d) = d).
    { simpl. rewrite to_int32_small; [lia|].
      unfold MAX_DELAY in Hd. change (2 ^ 31) with 2147483648. lia. }
    rewrite Htd. apply wake_due.
  - intros k1 e1 k2 e2 k3 v Hretries H1 H2 Hk1 Hk2 Hk3.
    change (saysRateLimit e1) with (is429 e1) in H1.
    change (saysRateLimit e2) with (is429 e2) in H2.
    unfold Portfolio.fetchWithRetry.
    destruct (Hstep 0 e1 k1 [(k2, Throw e2); (k3, Ok v)] s Hok Hk1)
      as (s1 & _ & -> & Hok2 & Hb2 & Ha2); [lia | right; lia|].
    replace (nextIndex 0 e1) with 1 by (unfold nextIndex; now rewrite H1).
    destruct (Hstep 1 e2 k2 [(k3, Ok v)] _ Hok2 Hk2)
      as (s3 & _ & -> & Hok4 & Hb4 & Ha4); [lia | right; lia|].
    replace (nextIndex 1 e2) with 2 by (unfold nextIndex; now rewrite H2).
    destruct (Hlast 2 k3 v _ Hok4) as (s5 & -> & Hb5 & Ha5); [lia|].
    eexists. split; [reflexivity|].
    cbn [invoked backoffs attempts]. rewrite Hb5, Ha5, Hb4, Ha4, Hb2, Ha2.
    unfold currentDelay. rewrite H1, H2.
    split; [now rewrite <- app_assoc | lia].
  - intros k1 e1 k2 e2 k3 e3 k4 v Hretries H1 H2 H3 Hk1 Hk2 Hk3 Hk4.
    change (saysRateLimit e1) with (is429 e1) in H1.
    change (saysRateLimit e2) with (is429 e2) in H2.
    change (saysRateLimit e3) with (is429 e3) in H3.
    unfold Portfolio.fetchWithRetry.
    destruct (Hstep 0 e1 k1 [(k2, Throw e2); (k3, Throw e3); (k4, Ok v)] s Hok Hk1)
      as (s1 & _ & -> & Hok2 & Hb2 & Ha2); [lia | now left|].
    replace (nextIndex 0 e1) with 1 by (unfold nextIndex; now rewrite H1).
    destruct (Hstep 1 e2 k2 [(k3, Throw e3); (k4, Ok v)] _ Hok2 Hk2)
      as (s3 & _ & -> & Hok4 & Hb4 & Ha4); [lia | now left|].
    replace (nextIndex 1 e2) with 1 by (unfold nextIndex; now rewrite H2).
    destruct (Hstep 1 e3 k3 [(k4, Ok v)] _ Hok4 Hk3)
      as (s5 & _ & -> & Hok6 & Hb6 & Ha6); [lia | right; lia|].
    replace (nextIndex 1 e3) with 2 by (unfold nextIndex; now rewrite H3).
    destruct (Hlast 2 k4 v _ Hok6) as (s7 & -> & Hb7 & Ha7); [lia|].
    eexists. split; [reflexivity|].
    cbn [invoked backoffs attempts].
    rewrite Hb7, Ha7, Hb6, Ha6, Hb4, Ha4, Hb2, Ha2.
    unfold currentDelay. rewrite H1, H2, H3.
    split; [now rewrite <- !app_assoc | lia].
Qed.

(** A call of the operation that takes some time, however it completes. *)
Local Abbreviation timed := (fun c : call T => 0 <= fst c).

Lemma retryLoop_returns (fuel : nat) (retries delay : Z) :
  (3 <= fuel)%nat ->
  forall (script : list (call T)) (i : Z) (s : state) (n : nat) took v,
    Forall timed script -> script !! n = Some (took, Ok v) -> windowOk s ->
    exists r s',
      retryLoop fuel retries delay i script s = Some (r, s') /\
      windowOk s' /\ clock s <= clock s' /\
      (attempts s <= attempts s' <= attempts s + S n)%nat /\
      waits s `prefix_of` waits s' /\ backoffs s `prefix_of` backoffs s'.
Proof.
  intros Hfuel script.
  induction script as [|[took0 c] rest IH]; intros i s n took v Htimed Hn Hok;
    [discriminate Hn|].
  destruct (Z_le_gt_dec retries i) as [Hdone|Hi].
  { exists (Throw maximumRetriesExceeded), s.
    rewrite retryLoop_done by lia.
    split; [reflexivity|]. split; [exact Hok|]. split; [lia|]. split; [lia|].
    split; reflexivity. }
  destruct (waitForRateLimit_returns fuel s Hfuel Hok)
    as (s1 & Hw & Hok1 & Hb1 & Ha1 & Hc1 & _ & _ & Hgr & Hpk).
  assert (Hwaits : waits s `prefix_of` waits s1).
  { destruct (fst (canMakeRequest s)) eqn:Hcan.
    - rewrite (Hgr eq_refl). reflexivity.
    - destruct (Hpk eq_refl) as (t1 & rest' & _ & _ & [-> | ->] & _);
        now eexists. }
  rewrite (retryLoop_step fuel retries delay i took0 c rest s s1) by (lia || exact Hw).
  inversion Htimed as [|? ? Htook Hrest]; subst. simpl in Htook.
  assert (Hinv : windowOk (invoked took0 s1)) by now apply invoked_windowOk.
  assert (Hstop : forall r : outcome jserror T, exists r' s',
            Some (r, invoked took0 s1) = Some (r', s') /\
            windowOk s' /\ clock s <= clock s' /\
            (attempts s <= attempts s' <= attempts s + S n)%nat /\
            waits s `prefix_of` waits s' /\ backoffs s `prefix_of` backoffs s').
  { intros r. exists r, (invoked took0 s1). split; [reflexivity|].
    split; [exact Hinv|]. cbn [invoked clock attempts waits backoffs].
    split; [lia|]. split; [lia|]. split; [exact Hwaits|]. now rewrite Hb1. }
  destruct c as [v0|e]; [apply Hstop|].
  destruct ((i =? retries - 1) && negb (is429 e)); [apply Hstop|].
  destruct n as [|n]; [discriminate Hn|].
  destruct (IH (nextIndex i e) (backedOff delay i e (invoked took0 s1)) n took v
              Hrest Hn) as (r & s' & Hr & Hok' & Hc' & Ha' & Hw' & Hb').
  { now apply backedOff_windowOk. }
  exists r, s'. split; [exact Hr|]. split; [exact Hok'|].
  cbn [Portfolio.backedOff invoked clock attempts waits backoffs] in Hc', Ha', Hw', Hb'.
  pose proof (wake_later (clock s1 + took0)
                (timer_delay (Num (currentDelay delay i e)))).
  split; [lia|]. split; [lia|].
  split; [now transitivity (waits s1)|].
  rewrite Hb1 in Hb'. etransitivity; [|exact Hb']. now eexists.
Qed.

(** X9: a run of [fetchWithRetry] over an operation that succeeds at its
    [n+1]-th call at the latest always returns, after at most [n+1] calls,
    whatever the failures before (rate-limit errors included); when it does,
    the window of request times is within the limit again and holds no time
    of the future, the clock has not gone back, and the waits and backoffs
    recorded so far are kept. *)
Theorem fetchWithRetry_returns_within_window (fuel : nat)
    (script : list (call T)) (retries delay : Z) (s : state) (n : nat)
    (took : Z) (v : T) :
  (3 <= fuel)%nat -> windowOk s -> Forall (fun c => 0 <= fst c) script ->
  script !! n = Some (took, Ok v) ->
  exists r s',
    fetchWithRetry fuel script retries delay s = Some (r, s') /\
    windowOk s' /\ clock s <= clock s' /\
    (attempts s <= attempts s' <= attempts s + S n)%nat /\
    waits s `prefix_of` waits s' /\ backoffs s `prefix_of` backoffs s'.
Proof.
  intros Hfuel Hok Htimed Hn.
  exact (retryLoop_returns fuel retries delay Hfuel script 0 s n took v Htimed Hn Hok).
Qed.

Lemma retryBackoff_bounds (delay : Z) (i : nat) :
  0 <= delay -> 0 <= Runs.retryBackoff delay i <= MAX_DELAY.
Proof.
  intros Hd. unfold Runs.retryBackoff, MAX_DELAY.
  assert (0 <= 2 ^ Z.of_nat i) by (apply Z.pow_nonneg; lia). nia.
Qed.

Lemma retryLoop_schedule (fuel : nat) (retries delay : Z) :
  (3 <= fuel)%nat -> 0 <= delay ->
  forall (script : list (call T)) (i : nat) (s : state),
    Forall plain script -> retries - Z.of_nat i <= Z.of_nat (length script) ->
    windowOk s ->
    exists r s',
      retryLoop fuel retries delay (Z.of_nat i) script s = Some (r, s') /\
      (Z.of_nat i < retries -> (attempts s < attempts s')%nat) /\
      backoffs s' =
        backoffs s ++ map (Runs.retryBackoff delay)
                          (seq i (attempts s' - attempts s - 1)) /\
      clock s + Runs.total (map (Runs.retryBackoff delay)
                              (seq i (attempts s' - attempts s - 1)))
        <= clock s'.
Proof.
  intros Hfuel Hdelay script.
  induction script as [|[took c] rest IH]; intros i s Hplain Hlen Hok.
  - exists (Throw maximumRetriesExceeded), s. simpl in Hlen.
    rewrite retryLoop_done by lia. split; [reflexivity|]. split; [lia|].
    replace (attempts s - attempts s - 1)%nat with 0%nat by lia.
    simpl. rewrite app_nil_r. split; [reflexivity | lia].
  - destruct (Z_le_gt_dec retries (Z.of_nat i)) as [Hdone|Hi].
    { exists (Throw maximumRetriesExceeded), s.
      rewrite retryLoop_done by lia. split; [reflexivity|]. split; [lia|].
      replace (attempts s - attempts s - 1)%nat with 0%nat by lia.
      simpl. rewrite app_nil_r. split; [reflexivity | lia]. }
    destruct (waitForRateLimit_returns fuel s Hfuel Hok)
      as (s1 & Hw & Hok1 & Hb1 & Ha1 & Hc1 & _).
    rewrite (retryLoop_step fuel retries delay (Z.of_nat i) took c rest s s1)
      by (lia || exact Hw).
    inversion Hplain as [|? ? [Htook Hc] Hrest]; subst. simpl in Htook, Hc.
    assert (Hstop : forall r : outcome jserror T, exists r' s',
              Some (r, invoked took s1) = Some (r', s') /\
              (Z.of_nat i < retries -> (attempts s < attempts s')%nat) /\
              backoffs s' =
                backoffs s ++ map (Runs.retryBackoff delay)
                                  (seq i (attempts s' - attempts s - 1)) /\
              clock s + Runs.total (map (Runs.retryBackoff delay)
                                      (seq i (attempts s' - attempts s - 1)))
                <= clock s').
    { intros r. exists r, (invoked took s1). split; [reflexivity|].
      cbn [invoked clock attempts backoffs]. rewrite Ha1, Hb1.
      split; [lia|].
      replace (S (attempts s) - attempts s - 1)%nat with 0%nat by lia.
      simpl. rewrite app_nil_r. split; [reflexivity | lia]. }
    destruct c as [v|e]; [apply Hstop|].
    rewrite (Hc e eq_refl), andb_true_r.
    destruct (Z.of_nat i =? retries - 1) eqn:Hlast; [apply Hstop|].
    apply Z.eqb_neq in Hlast.
    assert (Hnext : nextIndex (Z.of_nat i) e = Z.of_nat (S i))
      by (unfold nextIndex; rewrite (Hc e eq_refl); lia).
    rewrite Hnext.
    destruct (IH (S i) (backedOff delay (Z.of_nat i) e (invoked took s1)) Hrest)
      as (r & s' & Hr & Ha' & Hb' & Hc').
    { simpl in Hlen. lia. }
    { apply backedOff_windowOk. now apply invoked_windowOk. }
    assert (Hcur : currentDelay delay (Z.of_nat i) e = Runs.retryBackoff delay i)
      by (unfold currentDelay; now rewrite (Hc e eq_refl)).
    pose proof (retryBackoff_bounds delay i Hdelay) as Hbd.
    assert (Htd : timer_delay (Num (Runs.retryBackoff delay i))
                  = Runs.retryBackoff delay i).
    { simpl. rewrite to_int32_small; [lia|].
      unfold MAX_DELAY in Hbd. change (2 ^ 31) with 2147483648. lia. }
    cbn [Portfolio.backedOff invoked clock attempts backoffs] in Ha', Hb', Hc'.
    rewrite Hcur in Hb', Hc'. rewrite Htd in Hc'. rewrite Ha1 in Ha', Hb', Hc'.
    rewrite Hb1 in Hb'.
    specialize (Ha' ltac:(lia)).
    exists r, s'. split; [exact Hr|]. split; [lia|].
    replace (attempts s' - attempts s - 1)%nat
      with (S (attempts s' - S (attempts s) - 1)) by lia.
    cbn [seq map Runs.total foldr].
    split.
    + rewrite Hb', <- app_assoc. reflexivity.
    + pose proof (wake_due (clock s1 + took) (Runs.retryBackoff delay i)).
      fold (Runs.total (map (Runs.retryBackoff delay)
                          (seq (S i) (attempts s' - S (attempts s) - 1)))).
      lia.
Qed.

(** X10: the backoff schedule of [fetchWithRetry] over failures that are not
    rate-limit errors, for a delay that is not negative: the run returns,
    the delays it has slept are [min(delay * 2^k, MAX_DELAY)] for
    [k = 0, 1, ...], one after each call but the last, each at most
    [MAX_DELAY], and the run has taken at least their sum. *)
Theorem fetchWithRetry_backoff_schedule (fuel : nat) (script : list (call T))
    (retries delay : Z) (s : state) :
  (3 <= fuel)%nat -> 0 <= delay -> windowOk s -> Forall plain script ->
  retries <= Z.of_nat (length script) ->
  exists r s',
    fetchWithRetry fuel script retries delay s = Some (r, s') /\
    backoffs s' =
      backoffs s ++ map (Runs.retryBackoff delay)
                        (seq 0 (attempts s' - attempts s - 1)) /\
    Forall (fun d => 0 <= d <= MAX_DELAY)
           (map (Runs.retryBackoff delay) (seq 0 (attempts s' - attempts s - 1))) /\
    clock s + Runs.total (map (Runs.retryBackoff delay)
                            (seq 0 (attempts s' - attempts s - 1)))
      <= clock s'.
Proof.
  intros Hfuel Hdelay Hok Hplain Hlen.
  destruct (retryLoop_schedule fuel retries delay Hfuel Hdelay script 0 s Hplain)
    as (r & s' & Hr & _ & Hb & Hc); [simpl; lia | exact Hok |].
  exists r, s'. split; [exact Hr|]. split; [exact Hb|]. split; [|exact Hc].
  apply Forall_map, Forall_forall. intros k _.
  now apply retryBackoff_bounds.
Qed.

End PortfolioProperties.

(** ** The rate limiter and the retry loop at work *)

Section PortfolioExamples.
Import Portfolio Demo.

Lemma late_due (t d : Z) : t + d <= late t d.
Proof. unfold late. lia. Qed.

Lemma late_later (t d : Z) : t < late t d.
Proof. unfold late. lia. Qed.

Lemma idle_windowOk : windowOk 30 idle.
Proof. split; simpl; [lia | constructor]. Qed.

Example third_request_waits :
  waitForRateLimit 2 late 3 busy
  = Some {| clock := 61001; requestTimestamps := [1200; 61001];
            waits := [Num 59500]; backoffs := []; attempts := 0 |}.
Proof. vm_compute. reflexivity. Qed.

(** With punctual timers the caller is woken on the millisecond the oldest
    request is exactly one window old, which still counts as inside the
    window: it sleeps a second time, for 0 ms. *)
Example third_request_waits_twice :
  waitForRateLimit 2 (fun t d => if d =? 0 then t + 1 else punctual t d) 3 busy
  = Some {| clock := 61001; requestTimestamps := [1200; 61001];
            waits := [Num 59500; Num 0]; backoffs := []; attempts := 0 |}.
Proof. vm_compute. reflexivity. Qed.




(** With the default delays: two time-outs, then a success; and two
    rate-limit failures, a time-out, then a success. *)
Lemma backoff_spec_witness :
  (exists s',
     fetchWithRetry 30 late 3
       [(10, Throw timedOut); (10, Throw timedOut); (10, Ok 42)]
       MAX_RETRIES BASE_DELAY idle = Some (Ok 42, s') /\
     backoffs s' = [2000; 4000]) /\
  (exists s',
     fetchWithRetry 30 late 3
       [(10, Throw tooMany); (10, Throw tooMany); (10, Throw timedOut); (10, Ok 42)]
       MAX_RETRIES BASE_DELAY idle = Some (Ok 42, s') /\
     backoffs s' = [10000; 10000; 4000]).
Proof.
  destruct (backoff_spec 30 late Z ltac:(lia) late_due late_later 3
              MAX_RETRIES BASE_DELAY idle ltac:(lia) idle_windowOk)
    as (_ & _ & Hplain & Hlimited).
  split.
  - destruct (Hplain 10 timedOut 10 timedOut 10 42
                ltac:(unfold MAX_RETRIES; lia) eq_refl eq_refl
                ltac:(lia) ltac:(lia) ltac:(lia)) as (s' & Hr & Hb & _).
    exists s'. split; [exact Hr|]. rewrite Hb. reflexivity.
  - destruct (Hlimited 10 tooMany 10 tooMany 10 timedOut 10 42
                ltac:(unfold MAX_RETRIES; lia) eq_refl eq_refl eq_refl
                ltac:(lia) ltac:(lia) ltac:(lia) ltac:(lia))
      as (s' & Hr & Hb & _).
    exists s'. split; [exact Hr|]. rewrite Hb. reflexivity.
Defined.

(** C8, as stated, fails. The third attempt (attempt number 2) fails with a
    time-out, which is not a rate-limit failure, after two rate-limit
    failures: the delay that follows is 4000 ms, where
    [min(BASE_DELAY * 2^2, MAX_DELAY)] is 8000 ms, because the loop variable
    was pulled back after each rate-limit failure. *)
Lemma backoff_lags_behind_attempt_number :
  exists s',
    fetchWithRetry 30 late 3
      [(10, Throw tooMany); (10, Throw tooMany); (10, Throw timedOut); (10, Ok 42)]
      MAX_RETRIES BASE_DELAY idle = Some (Ok 42, s') /\
    is429 timedOut = false /\
    backoffs s' !! 2%nat = Some 4000 /\
    Z.min (BASE_DELAY * 2 ^ 2) MAX_DELAY = 8000.
Proof.
  eexists. split; [vm_compute; reflexivity|].
  split; [reflexivity|]. split; reflexivity.
Qed.

(** After two rate-limit failures the loop variable is still 1: the third
    failure, of another kind, is followed by [min(2000 * 2^1, 10000)]. *)
Example backoff_after_rate_limits :
  exists s',
    fetchWithRetry 30 late 3
      [(10, Throw tooMany); (10, Throw tooMany); (10, Throw timedOut); (10, Ok 42)]
      MAX_RETRIES BASE_DELAY idle = Some (Ok 42, s') /\
    backoffs s' = [10000; 10000; 4000] /\ requestTimestamps s' <> [].
Proof.
  eexists. split; [vm_compute; reflexivity|]. split; [reflexivity | discriminate].
Qed.

End PortfolioExamples.

(** * Properties of the CoinGecko cache *)

Section CoinGeckoProperties.
Import CoinGecko.

Variable wake : Z -> Z -> Z.

Local Abbreviation wait := (wait wake).
Local Abbreviation tryProxies := (tryProxies wake).
Local Abbreviation retryLoop := (retryLoop wake).
Local Abbreviation fetchWithCORS := (fetchWithCORS wake).

Lemma checkRateLimit_fetched (s : state) :
  fetched (snd (checkRateLimit s)) = fetched s.
Proof.
  unfold checkRateLimit.
  destruct (RATE_LIMIT_RESET <=? clock s - lastResetTime s);
    match goal with |- context [if ?b then _ else _] => destruct b end;
    reflexivity.
Qed.

(** The loop over the proxies, one proxy at a time. *)
Lemma tryProxies_cons (proxy : string) (proxies : list string) (url : string)
    (cacheKey lastError : option string) (backoffTime took : Z)
    (c : completion) (rest : list call) (s : state) :
  tryProxies (proxy :: proxies) url cacheKey lastError backoffTime
    ((took, c) :: rest) s =
    let s1 := {| clock := clock s + took; apiCache := apiCache s;
                 requestCount := requestCount s;
                 lastResetTime := lastResetTime s;
                 fetched := fetched s ++ [(proxy ++ encodeURIComponent url)%string];
                 waited := waited s |} in
    match c with
    | NetworkError m =>
        tryProxies proxies url cacheKey (Some m) backoffTime rest s1
    | Response status statusText body =>
        if status =? 429 then
          tryProxies proxies url cacheKey lastError (nextBackoff backoffTime)
            rest (wait backoffTime s1)
        else if ok status then
          match body with
          | Ok d =>
              Some (Got d, rest,
                    match givenKey cacheKey with
                    | Some k => setCachedData k d s1
                    | None => s1
                    end)
          | Throw m =>
              tryProxies proxies url cacheKey (Some m) backoffTime rest s1
          end
        else
          tryProxies proxies url cacheKey
            (Some ("HTTP " ++ pretty status ++ ": " ++ statusText)%string)
            backoffTime rest s1
    end.
Proof. reflexivity. Qed.

(** A completed pass over a list of proxies that is not empty has sent its
    first request to the first of them, and only adds to the requests
    sent. *)
Lemma tryProxies_fetched (proxies : list string) (url : string)
    (cacheKey : option string) :
  forall (lastError : option string) (backoffTime : Z) (script : list call)
         (s : state) p script' s',
    tryProxies proxies url cacheKey lastError backoffTime script s
    = Some (p, script', s') ->
    exists more,
      fetched s' = fetched s ++ more /\
      forall proxy proxies', proxies = proxy :: proxies' ->
        exists more', more = (proxy ++ encodeURIComponent url)%string :: more'.
Proof.
  induction proxies as [|proxy proxies IH]; intros lastError b script s p script' s' H.
  - simpl in H. inversion H; subst. exists [].
    split; [now rewrite app_nil_r | discriminate].
  - destruct script as [|[took c] rest]; [discriminate|].
    rewrite tryProxies_cons in H. cbv zeta in H.
    assert (Hgo : forall le b' s1,
              fetched s1 = fetched s ++ [(proxy ++ encodeURIComponent url)%string] ->
              tryProxies proxies url cacheKey le b' rest s1 = Some (p, script', s') ->
              exists more,
                fetched s' = fetched s ++ more /\
                forall proxy0 proxies', proxy :: proxies = proxy0 :: proxies' ->
                  exists more', more = (proxy0 ++ encodeURIComponent url)%string :: more').
    { intros le b' s1 Hs1 Hrec.
      destruct (IH _ _ _ _ _ _ _ Hrec) as (more & Hmore & _).
      exists ((proxy ++ encodeURIComponent url)%string :: more).
      split; [rewrite Hmore, Hs1, <- app_assoc; reflexivity|].
      intros proxy0 proxies' Heq. inversion Heq; subst. now exists more. }
    destruct c as [m|status statusText body].
    + eapply Hgo; [|exact H]. reflexivity.
    + destruct (status =? 429); [eapply Hgo; [|exact H]; reflexivity|].
      destruct (ok status); [|eapply Hgo; [|exact H]; reflexivity].
      destruct body as [d|m]; [|eapply Hgo; [|exact H]; reflexivity].
      inversion H; subst. exists [(proxy ++ encodeURIComponent url)%string].
      split; [destruct (givenKey cacheKey); reflexivity|].
      intros proxy0 proxies' Heq. inversion Heq; subst. now exists [].
Qed.

Lemma tryProxies_first (url : string) (cacheKey lastError : option string)
    (backoffTime : Z) (script : list call) (s : state) p script' s' :
  tryProxies CORS_PROXIES url cacheKey lastError backoffTime script s
  = Some (p, script', s') ->
  exists more,
    fetched s' = fetched s ++ ("https://corsproxy.io/?" ++ encodeURIComponent url)%string :: more.
Proof.
  intros H.
  destruct (tryProxies_fetched _ _ _ _ _ _ _ _ _ _ H) as (more & Hmore & Hfirst).
  destruct (Hfirst _ _ eq_refl) as [more' ->]. now exists more'.
Qed.

(** The loop of [fetchWithCORS], one iteration at a time. *)
Lemma retryLoop_cons (retry : Z) (retries : list Z) (url : string)
    (cacheKey lastError : option string) (backoffTime : Z)
    (script : list call) (s : state) :
  retryLoop (retry :: retries) url cacheKey lastError backoffTime script s =
    match checkRateLimit s with
    | (Throw _, s1) =>
        retryLoop retries url cacheKey lastError (nextBackoff backoffTime)
          script (wait backoffTime s1)
    | (Ok _, s1) =>
        match tryProxies CORS_PROXIES url cacheKey lastError backoffTime
                script s1 with
        | None => None
        | Some (Got d, _, s2) => Some (Ok d, s2)
        | Some (Fell lastError' backoffTime', script', s2) =>
            if retry <? MAX_RETRIES then
              retryLoop retries url cacheKey lastError'
                (nextBackoff backoffTime') script' (wait backoffTime' s2)
            else
              retryLoop retries url cacheKey lastError' backoffTime'
                script' s2
        end
    end.
Proof. reflexivity. Qed.

(** A good response from the first proxy ends the pass. *)
Lemma tryProxies_good (proxy : string) (proxies : list string) (url : string)
    (cacheKey lastError : option string) (backoffTime took : Z)
    (statusText : string) (d : json) (rest : list call) (s : state) :
  tryProxies (proxy :: proxies) url cacheKey lastError backoffTime
    ((took, Response 200 statusText (Ok d)) :: rest) s
  = Some (Got d, rest,
          let s1 := {| clock := clock s + took; apiCache := apiCache s;
                       requestCount := requestCount s;
                       lastResetTime := lastResetTime s;
                       fetched := fetched s ++ [(proxy ++ encodeURIComponent url)%string];
                       waited := waited s |} in
          match givenKey cacheKey with
          | Some k => setCachedData k d s1
          | None => s1
          end).
Proof. apply tryProxies_cons. Qed.

Lemma retryLoop_fetched (retries : list Z) (url : string) (cacheKey : option string) :
  forall (lastError : option string) (backoffTime : Z) (script : list call)
         (s : state) r s',
    retryLoop retries url cacheKey lastError backoffTime script s = Some (r, s') ->
    exists more, fetched s' = fetched s ++ more.
Proof.
  induction retries as [|retry retries IH]; intros le b script s r s' H.
  - simpl in H. inversion H; subst. exists []. now rewrite app_nil_r.
  - rewrite retryLoop_cons in H.
    pose proof (checkRateLimit_fetched s) as Hf.
    destruct (checkRateLimit s) as [[[]|e] s1]; simpl in Hf.
    + destruct (tryProxies CORS_PROXIES url cacheKey le b script s1)
        as [[[p script'] s2]|] eqn:Ht; [|discriminate].
      destruct (tryProxies_fetched _ _ _ _ _ _ _ _ _ _ Ht) as (m1 & Hm1 & _).
      destruct p as [d|le2 b2].
      * inversion H; subst. exists m1. now rewrite Hm1, Hf.
      * destruct (retry <? MAX_RETRIES);
          destruct (IH _ _ _ _ _ _ H) as [m2 Hm2];
          exists (m1 ++ m2); rewrite Hm2; simpl; rewrite ?Hm1, Hf;
          now rewrite app_assoc.
    + destruct (IH _ _ _ _ _ _ H) as [m2 Hm2].
      exists m2. rewrite Hm2. simpl. now rewrite Hf.
Qed.

Lemma nextBackoff_cors (j : nat) :
  nextBackoff (Runs.corsBackoff j) = Runs.corsBackoff (S j).
Proof.
  unfold nextBackoff, Runs.corsBackoff, INITIAL_BACKOFF, MAX_BACKOFF.
  rewrite Nat2Z.inj_succ, Z.pow_succ_r by lia.
  assert (0 < 2 ^ Z.of_nat j) by (apply Z.pow_pos_nonneg; lia). lia.
Qed.

Lemma corsBackoff_bounds (j : nat) : 1000 <= Runs.corsBackoff j <= 32000.
Proof.
  unfold Runs.corsBackoff, INITIAL_BACKOFF, MAX_BACKOFF.
  assert (0 < 2 ^ Z.of_nat j) by (apply Z.pow_pos_nonneg; lia). lia.
Qed.

(** A pass over the proxies always ends when the script has a completion
    for each of them; it waits after each 429 and only then, with the
    successive values of the backoff. *)
Lemma tryProxies_total (url : string) (cacheKey : option string) :
  forall (proxies : list string) (lastError : option string) (j : nat)
         (script : list call) (s : state),
    (length proxies <= length script)%nat ->
    exists p script' s' k more,
      tryProxies proxies url cacheKey lastError (Runs.corsBackoff j) script s
      = Some (p, script', s') /\
      (length script <= length script' + length proxies)%nat /\
      (k <= length proxies)%nat /\
      waited s' = waited s ++ map Runs.corsBackoff (seq j k) /\
      fetched s' = fetched s ++ more /\ (length more <= length proxies)%nat /\
      Forall (fun u => exists proxy, proxy ∈ proxies /\ u = (proxy ++ encodeURIComponent url)%string) more /\
      requestCount s' = requestCount s /\ lastResetTime s' = lastResetTime s /\
      match p with
      | Got d =>
          apiCache s' =
            match givenKey cacheKey with
            | Some key => <[key := {| data := d; timestamp := clock s' |}]> (apiCache s)
            | None => apiCache s
            end
      | Fell _ b => b = Runs.corsBackoff (j + k) /\ apiCache s' = apiCache s
      end.
Proof.
  induction proxies as [|proxy proxies IH]; intros lastError j script s Hlen.
  - exists (Fell lastError (Runs.corsBackoff j)), script, s, 0%nat, [].
    simpl. rewrite !app_nil_r, !Nat.add_0_r.
    repeat split; try reflexivity; try lia. constructor.
  - destruct script as [|[took c] rest]; [simpl in Hlen; lia|].
    rewrite tryProxies_cons. cbv zeta.
    set (s1 := {| clock := clock s + took; apiCache := apiCache s;
                  requestCount := requestCount s;
                  lastResetTime := lastResetTime s;
                  fetched := fetched s ++ [(proxy ++ encodeURIComponent url)%string];
                  waited := waited s |}).
    assert (Hmem : forall more,
      Forall (fun u => exists proxy0, proxy0 ∈ proxies /\ u = (proxy0 ++ encodeURIComponent url)%string) more ->
      Forall (fun u => exists proxy0, proxy0 ∈ proxy :: proxies /\ u = (proxy0 ++ encodeURIComponent url)%string)
             ((proxy ++ encodeURIComponent url)%string :: more)).
    { intros more Hm. constructor.
      - exists proxy. split; [apply list_elem_of_here | reflexivity].
      - eapply Forall_impl; [exact Hm|]. intros u (q & Hq & ->).
        exists q. split; [now apply list_elem_of_further | reflexivity]. }
    assert (Hgo : forall le,
      exists p script' s' k more,
        tryProxies proxies url cacheKey le (Runs.corsBackoff j) rest s1
        = Some (p, script', s') /\
        (length ((took, c) :: rest) <= length script' + length (proxy :: proxies))%nat /\
        (k <= length (proxy :: proxies))%nat /\
        waited s' = waited s ++ map Runs.corsBackoff (seq j k) /\
        fetched s' = fetched s ++ more /\
        (length more <= length (proxy :: proxies))%nat /\
        Forall (fun u => exists proxy0, proxy0 ∈ proxy :: proxies /\
                                        u = (proxy0 ++ encodeURIComponent url)%string) more /\
        requestCount s' = requestCount s /\ lastResetTime s' = lastResetTime s /\
        match p with
        | Got d =>
            apiCache s' =
              match givenKey cacheKey with
              | Some key => <[key := {| data := d; timestamp := clock s' |}]> (apiCache s)
              | None => apiCache s
              end
        | Fell _ b => b = Runs.corsBackoff (j + k) /\ apiCache s' = apiCache s
        end).
    { intros le.
      destruct (IH le j rest s1) as (p & script' & s' & k & more & Hr & Hl & Hk & Hw &
                                     Hf & Hm & Hall & Hrc & Hlr & Hp);
        [simpl in Hlen; lia|].
      exists p, script', s', k, ((proxy ++ encodeURIComponent url)%string :: more).
      split; [exact Hr|]. simpl length. split; [lia|]. split; [lia|].
      split; [exact Hw|].
      split; [rewrite Hf; unfold s1; cbn [fetched]; now rewrite <- app_assoc|].
      split; [lia|]. split; [now apply Hmem|].
      split; [exact Hrc|]. split; [exact Hlr|]. exact Hp. }
    destruct c as [m|status statusText body]; [apply Hgo|].
    destruct (status =? 429).
    + rewrite nextBackoff_cors.
      destruct (IH lastError (S j) rest (wait (Runs.corsBackoff j) s1))
        as (p & script' & s' & k & more & Hr & Hl & Hk & Hw &
            Hf & Hm & Hall & Hrc & Hlr & Hp);
        [simpl in Hlen; lia|].
      exists p, script', s', (S k), ((proxy ++ encodeURIComponent url)%string :: more).
      split; [exact Hr|]. simpl length. split; [lia|]. split; [lia|].
      split; [rewrite Hw; cbn [CoinGecko.wait waited s1 seq map];
              now rewrite <- app_assoc|].
      split; [rewrite Hf; cbn [CoinGecko.wait fetched s1]; now rewrite <- app_assoc|].
      split; [lia|]. split; [now apply Hmem|].
      split; [exact Hrc|]. split; [exact Hlr|].
      replace (j + S k)%nat with (S j + k)%nat by lia. exact Hp.
    + destruct (ok status); [|apply Hgo].
      destruct body as [d|m]; [|apply Hgo].
      exists (Got d), rest,
        (match givenKey cacheKey with
         | Some k => setCachedData k d s1
         | None => s1
         end), 0%nat, [(proxy ++ encodeURIComponent url)%string].
      split; [reflexivity|]. simpl length. split; [lia|]. split; [lia|].
      cbn [seq map]. rewrite app_nil_r.
      split; [now destruct (givenKey cacheKey)|].
      split; [now destruct (givenKey cacheKey)|].
      split; [lia|]. split; [apply Hmem; constructor|].
      split; [now destruct (givenKey cacheKey)|].
      split; [now destruct (givenKey cacheKey)|].
      now destruct (givenKey cacheKey).
Qed.

Lemma checkRateLimit_frame (s : state) :
  apiCache (snd (checkRateLimit s)) = apiCache s /\
  fetched (snd (checkRateLimit s)) = fetched s /\
  waited (snd (checkRateLimit s)) = waited s /\
  clock (snd (checkRateLimit s)) = clock s.
Proof.
  unfold checkRateLimit.
  destruct (RATE_LIMIT_RESET <=? clock s - lastResetTime s);
    match goal with |- context [if ?b then _ else _] => destruct b end;
    repeat split.
Qed.

(** The loop of [fetchWithCORS] always ends when the script has three
    completions for each iteration. *)
Lemma retryLoop_total (url : string) (cacheKey : option string) :
  forall (retries : list Z) (lastError : option string) (j : nat)
         (script : list call) (s : state),
    (3 * length retries <= length script)%nat ->
    exists r s' k more,
      retryLoop retries url cacheKey lastError (Runs.corsBackoff j) script s
      = Some (r, s') /\
      (k <= Runs.maxWaits retries)%nat /\
      waited s' = waited s ++ map Runs.corsBackoff (seq j k) /\
      fetched s' = fetched s ++ more /\
      (length more <= 3 * length retries)%nat /\
      Forall (fun u => exists proxy, proxy ∈ CORS_PROXIES /\ u = (proxy ++ encodeURIComponent url)%string) more /\
      match r with
      | Ok d =>
          apiCache s' =
            match givenKey cacheKey with
            | Some key => <[key := {| data := d; timestamp := clock s' |}]> (apiCache s)
            | None => apiCache s
            end
      | Throw e =>
          apiCache s' = apiCache s /\ exists msg, e = CryptoError msg "FETCH_ERROR"
      end.
Proof.
  induction retries as [|retry retries IH]; intros lastError j script s Hlen.
  - exists (Throw (exhausted lastError)), s, 0%nat, [].
    simpl. rewrite !app_nil_r.
    repeat split; try reflexivity; try lia; [constructor|].
    unfold exhausted. now eexists.
  - rewrite retryLoop_cons.
    destruct (checkRateLimit_frame s) as (Hca & Hcf & Hcw & Hcc).
    destruct (checkRateLimit s) as [[u|e] s1]; cbn [snd] in Hca, Hcf, Hcw, Hcc.
    + destruct (tryProxies_total url cacheKey CORS_PROXIES lastError j script s1)
        as (p & script' & s2 & k1 & more1 & Hr & Hl & Hk & Hw & Hf & Hm & Hall &
            _ & _ & Hp).
      { simpl in *. lia. }
      rewrite Hr. destruct p as [d|le b].
      * exists (Ok d), s2, k1, more1. split; [reflexivity|].
        cbn [Runs.maxWaits foldr]. cbn [length CORS_PROXIES] in Hk, Hm.
        split; [destruct (retry <? MAX_RETRIES); lia|].
        split; [now rewrite Hw, Hcw|]. split; [now rewrite Hf, Hcf|].
        split; [simpl; lia|]. split; [exact Hall|]. now rewrite Hp, Hca.
      * destruct Hp as [-> Hp]. cbn [length CORS_PROXIES] in Hk, Hm, Hl.
        cbn [Runs.maxWaits foldr].
        destruct (retry <? MAX_RETRIES).
        -- rewrite nextBackoff_cors.
           destruct (IH le (S (j + k1)) script'
                       (wait (Runs.corsBackoff (j + k1)) s2))
             as (r & s' & k & more & Hr' & Hk' & Hw' & Hf' & Hm' & Hall' & Hres).
           { simpl in *. lia. }
           exists r, s', (k1 + S k)%nat, (more1 ++ more).
           split; [exact Hr'|]. split; [fold (Runs.maxWaits retries); lia|].
           split.
           { rewrite Hw'. cbn [CoinGecko.wait waited]. rewrite Hw, Hcw.
             rewrite seq_app, map_app. cbn [seq map].
             now rewrite <- !app_assoc. }
           split; [rewrite Hf'; cbn [CoinGecko.wait fetched];
                   now rewrite Hf, Hcf, <- app_assoc|].
           split; [rewrite length_app; simpl; lia|].
           split; [now apply Forall_app|].
           cbn [CoinGecko.wait apiCache] in Hres. now rewrite Hp, Hca in Hres.
        -- destruct (IH le (j + k1)%nat script' s2)
             as (r & s' & k & more & Hr' & Hk' & Hw' & Hf' & Hm' & Hall' & Hres).
           { simpl in *. lia. }
           exists r, s', (k1 + k)%nat, (more1 ++ more).
           split; [exact Hr'|]. split; [fold (Runs.maxWaits retries); lia|].
           split.
           { rewrite Hw', Hw, Hcw. rewrite seq_app, map_app.
             now rewrite <- !app_assoc. }
           split; [now rewrite Hf', Hf, Hcf, <- app_assoc|].
           split; [rewrite length_app; simpl; lia|].
           split; [now apply Forall_app|].
           now rewrite Hp, Hca in Hres.
    + rewrite nextBackoff_cors.
      destruct (IH lastError (S j) script (wait (Runs.corsBackoff j) s1))
        as (r & s' & k & more & Hr' & Hk' & Hw' & Hf' & Hm' & Hall' & Hres).
      { simpl in *. lia. }
      exists r, s', (S k), more. split; [exact Hr'|].
      cbn [Runs.maxWaits foldr].
      split; [fold (Runs.maxWaits retries); destruct (retry <? MAX_RETRIES); lia|].
      split; [rewrite Hw'; cbn [CoinGecko.wait waited seq map];
              now rewrite Hcw, <- app_assoc|].
      split; [rewrite Hf'; cbn [CoinGecko.wait fetched]; now rewrite Hcf|].
      split; [simpl in *; lia|]. split; [exact Hall'|].
      cbn [CoinGecko.wait apiCache] in Hres. now rewrite Hca in Hres.
Qed.

(** A call is answered by the cache, or runs the loop. *)
Lemma fetchWithCORS_cases (url : string) (cacheKey : option string)
    (cacheDuration : Z) (script : list call) (s : state) :
  (exists key d, givenKey cacheKey = Some key /\
                 getCachedData key cacheDuration s = Some d /\ truthy d = true /\
                 fetchWithCORS url cacheKey cacheDuration script s = Some (Ok d, s)) \/
  fetchWithCORS url cacheKey cacheDuration script s =
    retryLoop [0; 1; 2; 3] url cacheKey None (Runs.corsBackoff 0) script s.
Proof.
  unfold CoinGecko.fetchWithCORS.
  destruct (givenKey cacheKey) as [key|]; [|now right].
  destruct (getCachedData key cacheDuration s) as [d|] eqn:Hd; [|now right].
  destruct (truthy d) eqn:Ht; [|now right].
  left. now exists key, d.
Qed.

Lemma total_app (l1 l2 : list Z) :
  Runs.total (l1 ++ l2) = Runs.total l1 + Runs.total l2.
Proof.
  unfold Runs.total. induction l1 as [|x l1 IH]; simpl; [reflexivity|].
  rewrite IH. lia.
Qed.

Lemma total_corsBackoff_nonneg (j k : nat) :
  0 <= Runs.total (map Runs.corsBackoff (seq j k)).
Proof.
  revert j. induction k as [|k IH]; intros j; [simpl; unfold Runs.total; simpl; lia|].
  cbn [seq map]. change (Runs.total (?x :: ?l)) with (x + Runs.total l).
  pose proof (corsBackoff_bounds j). specialize (IH (S j)). lia.
Qed.

Lemma unserved_runs_loop (url k : string) (cacheDuration : Z)
    (script : list call) (s : state) :
  k <> ""%string -> unserved k cacheDuration s ->
  fetchWithCORS url (Some k) cacheDuration script s =
    retryLoop [0; 1; 2; 3] url (Some k) None INITIAL_BACKOFF script s.
Proof.
  intros Hk Hmiss. unfold CoinGecko.fetchWithCORS, givenKey.
  replace (String.eqb k "") with false
    by (symmetry; now apply String.eqb_neq).
  unfold getCachedData.
  destruct Hmiss as [-> | (e & -> & [Hold | Hfalsy])]; [reflexivity | |].
  - now replace (clock s - timestamp e <? cacheDuration) with false
      by (symmetry; apply Z.ltb_ge; lia).
  - destruct (clock s - timestamp e <? cacheDuration); [|reflexivity].
    now rewrite Hfalsy.
Qed.

Lemma hasRoom_lets_through (s : state) :
  hasRoom s ->
  checkRateLimit s =
    (Ok tt,
     {| clock := clock s; apiCache := apiCache s;
        requestCount :=
          (if RATE_LIMIT_RESET <=? clock s - lastResetTime s then 0
           else requestCount s) + 1;
        lastResetTime :=
          (if RATE_LIMIT_RESET <=? clock s - lastResetTime s then clock s
           else lastResetTime s);
        fetched := fetched s; waited := waited s |}).
Proof.
  intros Hroom. unfold checkRateLimit.
  destruct (RATE_LIMIT_RESET <=? clock s - lastResetTime s) eqn:Hreset.
  - reflexivity.
  - destruct Hroom as [H|H]; [apply Z.leb_gt in Hreset; lia|].
    now replace (MAX_REQUESTS_PER_MINUTE <=? requestCount s) with false
      by (symmetry; apply Z.leb_gt; lia).
Qed.

(** C5 (as amended): a call that finds, under its cache key, an entry
    younger than the cache duration whose data is truthy returns that data
    at once: nothing is fetched, the request counter is not touched and no
    script of completions is looked at. A call that finds no such entry
    (none, one as old as the duration or older, or one with falsy data)
    asks the request counter first; when the counter has room the call
    sends a request to the first proxy, and when the first answer is a good
    response it stores the body under the key with the current time and
    returns it. *)
Theorem cache_spec (url k : string) (cacheDuration : Z) (s : state) :
  k <> ""%string ->
  (forall e script,
     apiCache s !! k = Some e -> clock s - timestamp e < cacheDuration ->
     truthy (data e) = true ->
     fetchWithCORS url (Some k) cacheDuration script s = Some (Ok (data e), s)) /\
  (unserved k cacheDuration s -> hasRoom s ->
   (forall took statusText d rest,
      fetchWithCORS url (Some k) cacheDuration
        ((took, Response 200 statusText (Ok d)) :: rest) s
      = Some (Ok d, setCachedData k d (sent url took s))) /\
   (forall script, (12 <= length script)%nat ->
      exists r s' more,
        fetchWithCORS url (Some k) cacheDuration script s = Some (r, s') /\
        fetched s' =
          fetched s ++
          ("https://corsproxy.io/?" ++ encodeURIComponent url)%string :: more)).
Proof.
  intros Hk.
  assert (Hkey : givenKey (Some k) = Some k).
  { unfold givenKey. destruct (String.eqb k "") eqn:E; [|reflexivity].
    apply String.eqb_eq in E. contradiction. }
  split.
  - intros e script He Hlive Htruthy. unfold CoinGecko.fetchWithCORS.
    rewrite Hkey. unfold getCachedData. rewrite He.
    replace (clock s - timestamp e <? cacheDuration) with true
      by (symmetry; now apply Z.ltb_lt).
    now rewrite Htruthy.
  - intros Hmiss Hroom. split.
    + intros took statusText d rest.
      rewrite (unserved_runs_loop url k cacheDuration _ s Hk Hmiss).
      rewrite retryLoop_cons, (hasRoom_lets_through s Hroom).
      unfold CORS_PROXIES. rewrite tryProxies_good, Hkey. reflexivity.
    + intros script Hlen.
      rewrite (unserved_runs_loop url k cacheDuration script s Hk Hmiss).
      destruct (retryLoop_total url (Some k) [0; 1; 2; 3] None 0%nat script s)
        as (r & s' & _ & _ & H & _); [simpl; lia|].
      change (Runs.corsBackoff 0) with INITIAL_BACKOFF in H.
      exists r, s'.
      assert (Hfirst : exists more,
                fetched s' =
                  fetched s ++
                  ("https://corsproxy.io/?" ++ encodeURIComponent url)%string :: more);
        [|destruct Hfirst as [more Hmore]; exists more; split; [exact H | exact Hmore]].
      rewrite retryLoop_cons, (hasRoom_lets_through s Hroom) in H.
      match type of H with context [tryProxies _ _ _ _ _ _ ?s1] =>
        destruct (tryProxies CORS_PROXIES url (Some k) None INITIAL_BACKOFF script s1)
          as [[[p script'] s2]|] eqn:Ht; [|discriminate] end.
      destruct (tryProxies_first _ _ _ _ _ _ _ _ _ Ht) as [more Hmore].
      cbn [fetched] in Hmore.
      destruct p as [d|le b].
      * inversion H; subst. now exists more.
      * assert (Hrest : exists s3, exists more',
                  fetched s3 = fetched s2 /\ fetched s' = fetched s3 ++ more').
        { destruct (0 <? MAX_RETRIES);
            destruct (retryLoop_fetched _ _ _ _ _ _ _ _ _ H) as [more' Hmore'];
            eexists; exists more'; (split; [|exact Hmore']); reflexivity. }
        destruct Hrest as (s3 & more' & H3 & Hmore').
        exists (more ++ more'). rewrite Hmore', H3, Hmore.
        now rewrite <- app_assoc.
Qed.

(** X16: [fetchWithCORS] always comes to an end: with a completion for each
    of the at most 12 requests (4 iterations over 3 proxies) it returns or
    throws. Every request it sends goes to one of the three proxies with
    [encodeURIComponent(url)] appended; and whatever goes wrong, the caller only ever sees a
    [CryptoError] with code ["FETCH_ERROR"] (the ["RATE_LIMIT"] error of
    the request counter never leaves the function), in which case the
    cache is as before. *)
Theorem fetchWithCORS_always_returns (url : string) (cacheKey : option string)
    (cacheDuration : Z) (script : list call) (s : state) :
  (12 <= length script)%nat ->
  exists r s' more,
    fetchWithCORS url cacheKey cacheDuration script s = Some (r, s') /\
    fetched s' = fetched s ++ more /\ (length more <= 12)%nat /\
    Forall (fun u => exists proxy, proxy ∈ CORS_PROXIES /\ u = (proxy ++ encodeURIComponent url)%string) more /\
    match r with
    | Ok _ => True
    | Throw e => apiCache s' = apiCache s /\ exists msg, e = CryptoError msg "FETCH_ERROR"
    end.
Proof.
  intros Hlen.
  destruct (fetchWithCORS_cases url cacheKey cacheDuration script s)
    as [(key & d & _ & _ & _ & ->) | ->].
  - exists (Ok d), s, []. rewrite app_nil_r.
    repeat split; [simpl; lia | constructor].
  - destruct (retryLoop_total url cacheKey [0; 1; 2; 3] None 0%nat script s)
      as (r & s' & k & more & Hr & _ & _ & Hf & Hm & Hall & Hres);
      [simpl; lia|].
    exists r, s', more. split; [exact Hr|]. split; [exact Hf|].
    split; [simpl in Hm; lia|]. split; [exact Hall|].
    destruct r; [exact I | exact Hres].
Qed.

(** X17: the waits of one call of [fetchWithCORS]. It waits at most 15
    times, and its [k]-th wait is [min(1000 * 2^k, 32000)] ms whichever of
    its three wait sites makes it (request counter exhausted, status 429,
    all proxies failed): 1, 2, 4, 8, 16 s, then 32 s each, so a call asks
    for at most 351 s of waiting in all. *)
Theorem fetchWithCORS_backoff_schedule (url : string) (cacheKey : option string)
    (cacheDuration : Z) (script : list call) (s : state) :
  (12 <= length script)%nat ->
  exists r s' k,
    fetchWithCORS url cacheKey cacheDuration script s = Some (r, s') /\
    (k <= 15)%nat /\
    waited s' = waited s ++ map Runs.corsBackoff (seq 0 k) /\
    Forall (fun d => 1000 <= d <= 32000) (map Runs.corsBackoff (seq 0 k)) /\
    Runs.total (map Runs.corsBackoff (seq 0 k)) <= 351000.
Proof.
  intros Hlen.
  assert (Hsum : forall k, (k <= 15)%nat ->
            Forall (fun d => 1000 <= d <= 32000) (map Runs.corsBackoff (seq 0 k)) /\
            Runs.total (map Runs.corsBackoff (seq 0 k)) <= 351000).
  { intros k Hk. split.
    - apply Forall_map, Forall_forall. intros j _. apply corsBackoff_bounds.
    - assert (H15 : Runs.total (map Runs.corsBackoff (seq 0 15)) = 351000)
        by (vm_compute; reflexivity).
      replace 15%nat with (k + (15 - k))%nat in H15 by lia.
      rewrite seq_app, map_app, total_app in H15.
      pose proof (total_corsBackoff_nonneg (0 + k) (15 - k)). lia. }
  destruct (fetchWithCORS_cases url cacheKey cacheDuration script s)
    as [(key & d & _ & _ & _ & ->) | ->].
  - exists (Ok d), s, 0%nat. split; [reflexivity|]. split; [lia|].
    split; [simpl; now rewrite app_nil_r|]. apply Hsum. lia.
  - destruct (retryLoop_total url cacheKey [0; 1; 2; 3] None 0%nat script s)
      as (r & s' & k & more & Hr & Hk & Hw & _); [simpl; lia|].
    change (Runs.maxWaits [0; 1; 2; 3]) with 15%nat in Hk.
    exists r, s', k. split; [exact Hr|]. split; [exact Hk|].
    split; [exact Hw|]. now apply Hsum.
Qed.

(** X18: what a call of [fetchWithCORS] does to the cache, for a positive
    cache duration. Entries under other keys are never touched and a failed
    call changes nothing. After a successful call made with a cache key the
    returned value is the live entry of that key, so that the same call
    repeated at once, whatever its url, is answered from the cache without
    any request, provided the value is truthy. *)
Theorem fetchWithCORS_fills_cache (url : string) (cacheKey : option string)
    (cacheDuration : Z) (script : list call) (s : state) :
  (12 <= length script)%nat -> 0 < cacheDuration ->
  exists r s',
    fetchWithCORS url cacheKey cacheDuration script s = Some (r, s') /\
    (forall k, givenKey cacheKey <> Some k -> apiCache s' !! k = apiCache s !! k) /\
    match r with
    | Throw _ => apiCache s' = apiCache s
    | Ok d =>
        forall key, givenKey cacheKey = Some key ->
          getCachedData key cacheDuration s' = Some d /\
          (truthy d = true ->
           forall url' script',
             fetchWithCORS url' cacheKey cacheDuration script' s' = Some (Ok d, s'))
    end.
Proof.
  intros Hlen Hdur.
  assert (Hagain : forall key d s',
            givenKey cacheKey = Some key ->
            getCachedData key cacheDuration s' = Some d ->
            getCachedData key cacheDuration s' = Some d /\
            (truthy d = true ->
             forall url' script',
               fetchWithCORS url' cacheKey cacheDuration script' s' = Some (Ok d, s'))).
  { intros key d s' Hkey Hget. split; [exact Hget|].
    intros Ht url' script'. unfold CoinGecko.fetchWithCORS.
    now rewrite Hkey, Hget, Ht. }
  destruct (fetchWithCORS_cases url cacheKey cacheDuration script s)
    as [(key & d & Hkey & Hget & _ & ->) | ->].
  - exists (Ok d), s. split; [reflexivity|]. split; [reflexivity|].
    intros key' Hkey'. rewrite Hkey in Hkey'. injection Hkey' as <-.
    now apply Hagain.
  - destruct (retryLoop_total url cacheKey [0; 1; 2; 3] None 0%nat script s)
      as (r & s' & k & more & Hr & _ & _ & _ & _ & _ & Hres); [simpl; lia|].
    exists r, s'. split; [exact Hr|].
    destruct r as [d|e].
    + split.
      * intros k0 Hk0. rewrite Hres.
        destruct (givenKey cacheKey) as [key|]; [|reflexivity].
        apply lookup_insert_ne. congruence.
      * intros key Hkey. apply Hagain; [exact Hkey|].
        unfold getCachedData. rewrite Hres, Hkey, lookup_insert_eq.
        cbn [timestamp data].
        replace (clock s' - clock s' <? cacheDuration) with true
          by (symmetry; apply Z.ltb_lt; lia).
        reflexivity.
    + destruct Hres as [Hres _]. split; [now rewrite Hres | exact Hres].
Qed.

Lemma map_seq_S {A : Type} (f : nat -> A) (a n : nat) :
  map f (seq (S a) n) = map (fun i => f (S i)) (seq a n).
Proof. now rewrite <- seq_shift, map_map. Qed.

(** X19: the request counter of the CoinGecko service. Within one window
    (the clock stays less than [RATE_LIMIT_RESET] past the last reset), of
    any number of calls of [checkRateLimit] exactly those are let through
    that come while the counter is below 30: starting from 0, the first 30;
    the counter never passes 30 from below. A call that is refused changes
    nothing, and the first call made 60 s or more after the last reset is
    let through and restarts the counter at 1. *)
Theorem checkRateLimit_window (pauses : list Z) (s : state) :
  Forall (fun dt => 0 <= dt) pauses ->
  clock s + Runs.total pauses - lastResetTime s < RATE_LIMIT_RESET ->
  fst (Runs.checks pauses s) =
    map (fun i => requestCount s + Z.of_nat i <? MAX_REQUESTS_PER_MINUTE)
        (seq 0 (length pauses)) /\
  requestCount (snd (Runs.checks pauses s)) =
    Z.max (requestCount s)
          (Z.min MAX_REQUESTS_PER_MINUTE (requestCount s + Z.of_nat (length pauses))) /\
  (forall s0 e s1, checkRateLimit s0 = (Throw e, s1) ->
     s1 = s0 /\ e = CryptoError "Rate limit exceeded" "RATE_LIMIT") /\
  (forall s0, RATE_LIMIT_RESET <= clock s0 - lastResetTime s0 ->
     fst (checkRateLimit s0) = Ok tt /\
     requestCount (snd (checkRateLimit s0)) = 1 /\
     lastResetTime (snd (checkRateLimit s0)) = clock s0).
Proof.
  intros Hpos Hwin.
  assert (Hmain :
    fst (Runs.checks pauses s) =
      map (fun i => requestCount s + Z.of_nat i <? MAX_REQUESTS_PER_MINUTE)
          (seq 0 (length pauses)) /\
    requestCount (snd (Runs.checks pauses s)) =
      Z.max (requestCount s)
            (Z.min MAX_REQUESTS_PER_MINUTE (requestCount s + Z.of_nat (length pauses)))).
  { revert s Hwin. induction Hpos as [|dt rest Hdt Hrest IH]; intros s Hwin.
    - simpl. split; [reflexivity|]. unfold MAX_REQUESTS_PER_MINUTE. lia.
    - change (Runs.total (dt :: rest)) with (dt + Runs.total rest) in Hwin.
      assert (Hnn : 0 <= Runs.total rest).
      { clear -Hrest. induction Hrest as [|x l Hx _ IHl]; [unfold Runs.total; simpl; lia|].
        change (Runs.total (x :: l)) with (x + Runs.total l). lia. }
      cbn [Runs.checks].
      unfold checkRateLimit, Runs.elapsed. cbn [clock lastResetTime requestCount].
      replace (RATE_LIMIT_RESET <=? clock s + dt - lastResetTime s) with false
        by (symmetry; apply Z.leb_gt; lia).
      cbn [requestCount].
      destruct (MAX_REQUESTS_PER_MINUTE <=? requestCount s) eqn:Hfull.
      + apply Z.leb_le in Hfull.
        match goal with |- context [Runs.checks rest ?v] =>
          specialize (IH v); destruct (Runs.checks rest v) as [rs s2] end.
        cbn [fst snd clock lastResetTime requestCount] in IH |- *.
        destruct IH as [IH1 IH2]; [lia|].
        cbn [length seq map]. rewrite map_seq_S. split.
        * f_equal.
          -- symmetry. apply Z.ltb_ge. lia.
          -- rewrite IH1. apply map_ext. intros i.
             transitivity false; [apply Z.ltb_ge | symmetry; apply Z.ltb_ge]; lia.
        * rewrite IH2. unfold MAX_REQUESTS_PER_MINUTE in *. lia.
      + apply Z.leb_gt in Hfull.
        match goal with |- context [Runs.checks rest ?v] =>
          specialize (IH v); destruct (Runs.checks rest v) as [rs s2] end.
        cbn [fst snd clock lastResetTime requestCount] in IH |- *.
        destruct IH as [IH1 IH2]; [lia|].
        cbn [length seq map]. rewrite map_seq_S. split.
        * f_equal.
          -- symmetry. apply Z.ltb_lt. lia.
          -- rewrite IH1. apply map_ext. intros i. f_equal. lia.
        * rewrite IH2. unfold MAX_REQUESTS_PER_MINUTE in *. lia. }
  destruct Hmain as [H1 H2]. split; [exact H1|]. split; [exact H2|]. split.
  - intros s0 e s1. unfold checkRateLimit.
    destruct (RATE_LIMIT_RESET <=? clock s0 - lastResetTime s0).
    + cbn [requestCount]. change (MAX_REQUESTS_PER_MINUTE <=? 0) with false.
      cbv iota. discriminate.
    + destruct (MAX_REQUESTS_PER_MINUTE <=? requestCount s0); [|discriminate].
      intros H. injection H as <- <-. split; reflexivity.
  - intros s0 Hs0. unfold checkRateLimit.
    replace (RATE_LIMIT_RESET <=? clock s0 - lastResetTime s0) with true
      by (symmetry; apply Z.leb_le; lia).
    repeat split.
Qed.

End CoinGeckoProperties.

(** ** The cache at work *)

Section CoinGeckoExamples.
Import CoinGecko Demo.

(** An entry 20 s old is served from the cache; 45 s old, it is past the
    30 s of the price cache and is fetched again and stored. *)
Lemma cache_spec_witness :
  "sol_price"%string <> ""%string /\
  fetchWithCORS punctual priceUrl (Some "sol_price"%string) PRICE_CACHE_DURATION
    [] warm = Some (Ok price, warm) /\
  unserved "sol_price" PRICE_CACHE_DURATION Cases.aging /\
  hasRoom Cases.aging /\
  fetchWithCORS punctual priceUrl (Some "sol_price"%string) PRICE_CACHE_DURATION
    [(120, Response 200 "OK" (Ok price))] Cases.aging
  = Some (Ok price,
          {| clock := 45120;
             apiCache := {[ "sol_price"%string := {| data := price; timestamp := 45120 |} ]};
             requestCount := 2; lastResetTime := 0;
             fetched :=
               ["https://corsproxy.io/?https%3A%2F%2Fapi.coingecko.com%2Fapi%2Fv3%2Fsimple%2Fprice%3Fids%3Dsolana"%string];
             waited := [] |}).
Proof.
  assert (Hk : "sol_price"%string <> ""%string) by discriminate.
  assert (Hmiss : unserved "sol_price" PRICE_CACHE_DURATION Cases.aging).
  { right. exists {| data := price; timestamp := 0 |}.
    split; [reflexivity|]. left. vm_compute. discriminate. }
  assert (Hroom : hasRoom Cases.aging) by (right; vm_compute; reflexivity).
  split; [exact Hk|]. split; [|split; [exact Hmiss|split; [exact Hroom|]]].
  - destruct (cache_spec punctual priceUrl "sol_price" PRICE_CACHE_DURATION warm Hk)
      as (Hhit & _).
    apply (Hhit {| data := price; timestamp := 0 |}); reflexivity.
  - destruct (cache_spec punctual priceUrl "sol_price" PRICE_CACHE_DURATION
                Cases.aging Hk) as (_ & H).
    destruct (H Hmiss Hroom) as (Hgood & _).
    rewrite Hgood. reflexivity.
Defined.

Example stale_entry_is_fetched_again :
  fetched (setCachedData "sol_price" price (sent priceUrl 120 stale))
  = [("https://corsproxy.io/?" ++ encodeURIComponent priceUrl)%string] /\
  apiCache (setCachedData "sol_price" price (sent priceUrl 120 stale)) !! "sol_price"%string
  = Some {| data := price; timestamp := 100120 |}.
Proof. split; reflexivity. Qed.

(** C5, as stated, fails. The cached entry is older than the cache
    duration, but the 30 requests of the current minute are used up: the
    call backs off 1, 2, 4 and 8 seconds, the minute is still not over, and
    it fails with its FETCH_ERROR without having sent a single request,
    although a server was ready to answer. *)
Lemma expired_entry_not_refetched :
  getCachedData "sol_price" PRICE_CACHE_DURATION saturated = None /\
  fetchWithCORS punctual priceUrl (Some "sol_price"%string) PRICE_CACHE_DURATION
    [(120, Response 200 "OK" (Ok price))] saturated
  = Some (Throw (CryptoError "All fetch attempts failed: Unknown error" "FETCH_ERROR"),
          {| clock := 115000; apiCache := cached; requestCount := 30;
             lastResetTime := 99000; fetched := [];
             waited := [1000; 2000; 4000; 8000] |}).
Proof. split; reflexivity. Qed.

(** An entry whose data is falsy is never served from the cache: the body
    [0] stored 20 s ago is fetched again. *)
Example falsy_entry_is_fetched_again :
  getCachedData "sol_price" PRICE_CACHE_DURATION zeroed = Some (JNum 0) /\
  fetchWithCORS punctual priceUrl (Some "sol_price"%string) PRICE_CACHE_DURATION
    [(120, Response 200 "OK" (Ok (JNum 0)))] zeroed
  = Some (Ok (JNum 0), setCachedData "sol_price" (JNum 0) (sent priceUrl 120 zeroed)).
Proof. split; reflexivity. Qed.

End CoinGeckoExamples.

(** * Further properties of the burner wallet *)

Section WalletExtras.
Import BurnerWallet.
Context `{P : Platform}.

Lemma connect_storage (w : world) :
  localStorage (fst (connect w)) = localStorage w /\
  now (fst (connect w)) = now w.
Proof.
  unfold connect.
  destruct (_connecting (self w) || _connected (self w)); [now split|].
  destruct (_keypair (self w)); now split.
Qed.

Lemma setupDisconnectTimer_storage (c : jsnum) (w : world) :
  localStorage (setupDisconnectTimer c w) = localStorage w \/
  localStorage (setupDisconnectTimer c w) = delete storageKey (localStorage w).
Proof.
  unfold setupDisconnectTimer. destruct (Js.le _ _); [right | left]; reflexivity.
Qed.

Lemma loadBurnerWallet_storage (w : world) :
  localStorage (loadBurnerWallet w) = localStorage w \/
  localStorage (loadBurnerWallet w) = delete storageKey (localStorage w).
Proof.
  unfold loadBurnerWallet.
  destruct (localStorage w !! storageKey) as [it|]; [|now left].
  destruct (negb (nonempty it)); [now left|].
  destruct (JSON_parse it) as [j|]; [|now right].
  assert (Hload : forall kp c,
    let w2 := setupDisconnectTimer c
                (with_self w {| _keypair := Some kp;
                                _connecting := _connecting (self w);
                                _connected := _connected (self w);
                                _disconnectTimer := _disconnectTimer (self w) |}) in
    localStorage (if _connected (self w2) then fst (connect w2) else w2) = localStorage w \/
    localStorage (if _connected (self w2) then fst (connect w2) else w2)
    = delete storageKey (localStorage w)).
  { intros kp c w2.
    assert (H2 : localStorage w2 = localStorage w \/
                 localStorage w2 = delete storageKey (localStorage w))
      by exact (setupDisconnectTimer_storage c (with_self w _)).
    destruct (_connected (self w2)); [|exact H2].
    destruct (connect_storage w2) as [-> _]. exact H2. }
  destruct j; try (now right);
    (destruct (Js.gt _ _); [now right|];
     destruct (fromSecretKey _) as [kp|]; [apply Hload | now right]).
Qed.

Lemma delete_same_or_none (st st' : gmap string item) :
  st' = st \/ st' = delete storageKey st ->
  (forall k, k <> storageKey -> st' !! k = st !! k) /\
  (st' !! storageKey = st !! storageKey \/ st' !! storageKey = None).
Proof.
  intros [->| ->].
  - split; [reflexivity | now left].
  - split; [intros k Hk; now apply lookup_delete_ne|].
    right. apply lookup_delete_eq.
Qed.

Lemma step_storage (w w' : world) (a : action) :
  step w a = Some w' ->
  (forall k v, a <> SetItem k v) -> (forall k, a <> RemoveItem k) ->
  localStorage w' = localStorage w \/
  localStorage w' = delete storageKey (localStorage w).
Proof.
  intros Hs Hset Hrem. destruct a; simpl in Hs.
  - destruct (0 <=? dt); inversion Hs; subst. now left.
  - destruct (_disconnectTimer (self w)); [|discriminate].
    destruct (_ <=? _); inversion Hs; subst. now right.
  - inversion Hs; subst. apply loadBurnerWallet_storage.
  - inversion Hs; subst. left. apply connect_storage.
  - inversion Hs; subst. now right.
  - exfalso. exact (Hset k v eq_refl).
  - exfalso. exact (Hrem k eq_refl).
Qed.

(** X1: whatever the adapter does (constructor, timer callback, reload on
    visibility, connect, disconnect), it never writes a storage slot: every
    slot other than ["burnerWallet"] keeps its value, and the wallet slot
    either keeps its value or is removed. *)
Theorem adapter_only_removes_its_record (l : list action) (w w' : world) :
  run w l = Some w' -> undisturbed l ->
  (forall k, k <> storageKey -> localStorage w' !! k = localStorage w !! k) /\
  (localStorage w' !! storageKey = localStorage w !! storageKey \/
   localStorage w' !! storageKey = None) /\
  (forall t st,
     (forall k, k <> storageKey -> localStorage (construct t st) !! k = st !! k) /\
     (localStorage (construct t st) !! storageKey = st !! storageKey \/
      localStorage (construct t st) !! storageKey = None)).
Proof.
  intros Hrun Hl.
  assert (Hmain : (forall k, k <> storageKey -> localStorage w' !! k = localStorage w !! k) /\
                  (localStorage w' !! storageKey = localStorage w !! storageKey \/
                   localStorage w' !! storageKey = None)).
  { revert w Hrun. induction l as [|a l IH]; intros w Hrun; simpl in Hrun.
    - inversion Hrun; subst. split; [reflexivity | now left].
    - destruct (step w a) as [w1|] eqn:Hs; [|discriminate].
      inversion Hl as [|? ? [Hset Hrem] Hl']; subst.
      destruct (delete_same_or_none _ _ (step_storage _ _ _ Hs Hset Hrem)) as [H1 H1k].
      destruct (IH Hl' w1 Hrun) as [H2 H2k].
      split.
      + intros k Hk. rewrite (H2 k Hk). now apply H1.
      + destruct H2k as [H2k|H2k]; [|now right].
        rewrite H2k. exact H1k. }
  destruct Hmain as [H1 H2]. split; [exact H1|]. split; [exact H2|].
  intros t st. apply delete_same_or_none.
  apply (loadBurnerWallet_storage
           {| now := t; localStorage := st;
              self := {| _keypair := None; _connecting := false;
                         _connected := false; _disconnectTimer := None |};
              emitted := [] |}).
Qed.

Lemma loadBurnerWallet_no_record (w : world) :
  localStorage w !! storageKey = None -> loadBurnerWallet w = w.
Proof. intros H. unfold loadBurnerWallet. now rewrite H. Qed.

Lemma loadBurnerWallet_clearWallet (w : world) :
  loadBurnerWallet (clearWallet w) = clearWallet w.
Proof. apply loadBurnerWallet_no_record. apply lookup_delete_eq. Qed.

(** X2: [loadBurnerWallet] is idempotent: running it a second time at the
    same moment, as the constructor and a visibility event may do, changes
    nothing and emits nothing more. *)
Theorem loadBurnerWallet_idempotent (w : world) :
  loadBurnerWallet (loadBurnerWallet w) = loadBurnerWallet w.
Proof.
  destruct (localStorage w !! storageKey) as [it|] eqn:Hst.
  2:{ now rewrite !(loadBurnerWallet_no_record w Hst). }
  destruct (nonempty it) eqn:Hne.
  2:{ assert (H : loadBurnerWallet w = w)
        by (unfold loadBurnerWallet; now rewrite Hst, Hne).
      now rewrite !H. }
  destruct it as [s|j].
  { assert (H : loadBurnerWallet w = clearWallet w)
      by (unfold loadBurnerWallet; now rewrite Hst, Hne).
    rewrite H. apply loadBurnerWallet_clearWallet. }
  assert (j = JNull \/ j <> JNull) as [->|Hj]
    by (destruct j; (now left) || (right; discriminate)).
  { assert (H : loadBurnerWallet w = clearWallet w)
      by (unfold loadBurnerWallet; now rewrite Hst).
    rewrite H. apply loadBurnerWallet_clearWallet. }
  rewrite (loadBurnerWallet_doc w j Hst Hj).
  destruct (Js.gt _ _) eqn:Hgt; [apply loadBurnerWallet_clearWallet|].
  destruct (fromSecretKey (prop "secretKey" j)) as [kp|] eqn:Hk;
    [|apply loadBurnerWallet_clearWallet].
  cbv zeta. unfold setupDisconnectTimer, with_self. cbn [now self].
  destruct (Js.le _ _) eqn:Hle.
  { cbn [clearWallet self _connected]. apply loadBurnerWallet_clearWallet. }
  cbn [self _connected _keypair _connecting _disconnectTimer].
  destruct (_connected (self w)) eqn:Hc.
  - unfold connect, with_self. cbn [self _connecting _connected].
    rewrite orb_true_r.
    cbn [fst self now localStorage emitted _keypair _connecting _connected
         _disconnectTimer].
    match goal with |- loadBurnerWallet ?r = _ =>
      rewrite (loadBurnerWallet_doc r j Hst Hj) end.
    cbn [now self]. rewrite Hgt, Hk. cbv zeta.
    unfold setupDisconnectTimer, with_self. cbn [now self]. rewrite Hle.
    cbn [self _connected _keypair _connecting _disconnectTimer fst].
    unfold connect, with_self. cbn [self _connecting _connected orb fst].
    reflexivity.
  - match goal with |- loadBurnerWallet ?r = _ =>
      rewrite (loadBurnerWallet_doc r j Hst Hj) end.
    cbn [now self]. rewrite Hgt, Hk. cbv zeta.
    unfold setupDisconnectTimer, with_self. cbn [now self]. rewrite Hle.
    cbn [self _connected _keypair _connecting _disconnectTimer].
    reflexivity.
Qed.

(** The three ways [loadBurnerWallet] can end: nothing read, the wallet
    cleared, or a keypair loaded and a timer armed. *)
Lemma loadBurnerWallet_shape (w : world) :
  loadBurnerWallet w = w \/ loadBurnerWallet w = clearWallet w \/
  exists kp due,
    loadBurnerWallet w =
    with_self w {| _keypair := Some kp;
                   _connecting := if _connected (self w) then false
                                  else _connecting (self w);
                   _connected := _connected (self w);
                   _disconnectTimer := Some due |}.
Proof.
  unfold loadBurnerWallet.
  destruct (localStorage w !! storageKey) as [it|]; [|now left].
  destruct (negb (nonempty it)); [now left|].
  destruct (JSON_parse it) as [j|]; [|right; now left].
  assert (Hload : forall kp c,
    let w2 := setupDisconnectTimer c
                (with_self w {| _keypair := Some kp;
                                _connecting := _connecting (self w);
                                _connected := _connected (self w);
                                _disconnectTimer := _disconnectTimer (self w) |}) in
    let r := if _connected (self w2) then fst (connect w2) else w2 in
    r = w \/ r = clearWallet w \/
    exists kp due,
      r = with_self w {| _keypair := Some kp;
                         _connecting := if _connected (self w) then false
                                        else _connecting (self w);
                         _connected := _connected (self w);
                         _disconnectTimer := Some due |}).
  { intros kp c. unfold setupDisconnectTimer, with_self. cbn [now self].
    destruct (Js.le _ _).
    - right; left. reflexivity.
    - right; right. exists kp. eexists. cbv zeta.
      cbn [self _connected _keypair _connecting _disconnectTimer].
      destruct (_connected (self w)) eqn:Hc; [|reflexivity].
      unfold connect, with_self. cbn [self _connecting _connected].
      rewrite orb_true_r. reflexivity. }
  destruct j; try (right; now left);
    (destruct (Js.gt _ _); [right; now left|];
     destruct (fromSecretKey _) as [kp|]; [apply Hload | right; now left]).
Qed.

(** X3: [loadBurnerWallet] never connects: the adapter is connected after it
    only if it was before, and then no event was emitted; it emits nothing
    or one ['disconnect'], never a ['connect']. So the branch "reconnect if
    was previously connected" has no effect, and an adapter that has just
    been constructed is never connected. *)
Theorem loadBurnerWallet_never_connects (w : world) :
  (emitted (loadBurnerWallet w) = emitted w \/
   emitted (loadBurnerWallet w) = emitted w ++ [EvDisconnect]) /\
  (_connected (self (loadBurnerWallet w)) = true ->
   _connected (self w) = true /\ emitted (loadBurnerWallet w) = emitted w) /\
  (forall t st, _connected (self (construct t st)) = false).
Proof.
  assert (H : forall v,
    (emitted (loadBurnerWallet v) = emitted v \/
     emitted (loadBurnerWallet v) = emitted v ++ [EvDisconnect]) /\
    (_connected (self (loadBurnerWallet v)) = true ->
     _connected (self v) = true /\ emitted (loadBurnerWallet v) = emitted v)).
  { intros v.
    destruct (loadBurnerWallet_shape v) as [->|[->|(kp & due & ->)]].
    - split; [now left | now intros ->].
    - split; [now right | intros Hc; discriminate Hc].
    - split; [now left | intros Hc; split; [exact Hc | reflexivity]]. }
  split; [apply H|]. split; [apply H|].
  intros t st. unfold construct.
  match goal with |- _connected (self (loadBurnerWallet ?v)) = false =>
    destruct (_connected (self (loadBurnerWallet v))) eqn:Hc; [|reflexivity];
    destruct (proj2 (H v) Hc) as [Hv _]; discriminate Hv end.
Qed.

(** Loading a readable record that has not expired. *)
Lemma loadBurnerWallet_live (w : world) (j : json) (c : Z) (kp : Keypair) :
  localStorage w !! storageKey = Some (Doc j) -> j <> JNull ->
  getTime (prop "createdAt" j) = Num c ->
  fromSecretKey (prop "secretKey" j) = Some kp ->
  c <= now w < c + EXPIRY_TIME ->
  loadBurnerWallet w =
    with_self w {| _keypair := Some kp;
                   _connecting := if _connected (self w) then false
                                  else _connecting (self w);
                   _connected := _connected (self w);
                   _disconnectTimer := Some (c + EXPIRY_TIME) |}.
Proof.
  intros Hst Hj Hg Hk Hc.
  rewrite (loadBurnerWallet_doc w j Hst Hj), Hg, Hk. simpl.
  assert (Hd : Z.max 0 (to_int32 (EXPIRY_TIME - (now w - c)))
               = EXPIRY_TIME - (now w - c)).
  { rewrite to_int32_small; [lia|].
    unfold EXPIRY_TIME in *. split; [lia|].
    change (2 ^ 31) with 2147483648. lia. }
  replace (EXPIRY_TIME <? now w - c) with false
    by (symmetry; apply Z.ltb_ge; lia).
  unfold setupDisconnectTimer; simpl.
  replace (EXPIRY_TIME - (now w - c) <=? 0) with false
    by (symmetry; apply Z.leb_gt; lia).
  simpl. rewrite Hd.
  replace (now w + (EXPIRY_TIME - (now w - c))) with (c + EXPIRY_TIME) by lia.
  destruct (_connected (self w)) eqn:Hcon; simpl.
  - unfold connect; simpl. rewrite orb_true_r; simpl. reflexivity.
  - reflexivity.
Qed.

(** X4: reloading a readable, unexpired record (on a visibility change)
    replaces the keypair in memory by the stored one and re-arms the timer
    for [createdAt + 24h], without any event and without changing
    the connection: a connected adapter goes on signing, now with the stored
    key, although no ['connect'] announced its public key. *)
Theorem reload_takes_stored_key (w : world) (j : json) (c : Z) (kp : Keypair) :
  localStorage w !! storageKey = Some (Doc j) -> j <> JNull ->
  getTime (prop "createdAt" j) = Num c ->
  fromSecretKey (prop "secretKey" j) = Some kp ->
  c <= now w < c + EXPIRY_TIME ->
  loadBurnerWallet w =
    with_self w {| _keypair := Some kp;
                   _connecting := if _connected (self w) then false
                                  else _connecting (self w);
                   _connected := _connected (self w);
                   _disconnectTimer := Some (c + EXPIRY_TIME) |} /\
  (_connected (self w) = true ->
   forall tx, signTransaction (self (loadBurnerWallet w)) tx =
              match partialSign tx kp with
              | Ok tx' => Ok tx'
              | Throw msg => Throw (WalletNotConnectedError msg)
              end).
Proof.
  intros Hst Hj Hg Hk Hc.
  pose proof (loadBurnerWallet_live w j c kp Hst Hj Hg Hk Hc) as Heq.
  split; [exact Heq|].
  intros Hcon tx. rewrite Heq. unfold signTransaction, with_self.
  cbn [self _connected _keypair]. rewrite Hcon. reflexivity.
Qed.

Lemma step_connected_last (w w' : world) (a : action) :
  step w a = Some w' ->
  (_connected (self w) = true <-> exists pk, last (emitted w) = Some (EvConnect pk)) ->
  (_connected (self w') = true <-> exists pk, last (emitted w') = Some (EvConnect pk)).
Proof.
  assert (Hclear : forall v,
    _connected (self (clearWallet v)) = true <->
    exists pk, last (emitted (clearWallet v)) = Some (EvConnect pk)).
  { intros v. simpl. rewrite last_snoc. split; [discriminate|].
    intros [pk Hpk]. discriminate Hpk. }
  intros Hs IH. destruct a; simpl in Hs.
  - destruct (0 <=? dt); inversion Hs; subst. exact IH.
  - destruct (_disconnectTimer (self w)); [|discriminate].
    destruct (_ <=? _); inversion Hs; subst. apply Hclear.
  - inversion Hs; subst.
    destruct (loadBurnerWallet_shape w) as [->|[->|(kp & due & ->)]];
      [exact IH | apply Hclear | exact IH].
  - inversion Hs; subst. unfold connect.
    destruct (_connecting (self w) || _connected (self w)); [exact IH|].
    destruct (_keypair (self w)) as [kp|]; [|exact IH].
    simpl. rewrite last_snoc. split; [intros _; now exists (publicKey58 kp) | reflexivity].
  - inversion Hs; subst. apply Hclear.
  - inversion Hs; subst. exact IH.
  - inversion Hs; subst. exact IH.
Qed.

(** X5: in every reachable state the adapter is connected exactly when the
    last event it emitted is a ['connect']: every path that sets
    [_connected] emits ['connect'] and every path that resets it emits
    ['disconnect'], so a listener that follows the events knows the
    connection state. *)
Theorem connected_iff_last_event_is_connect (w : world) :
  reachable w ->
  (_connected (self w) = true <-> exists pk, last (emitted w) = Some (EvConnect pk)).
Proof.
  induction 1 as [t st | w a w' Hr IH Hs].
  - unfold construct.
    match goal with |- context [loadBurnerWallet ?v] =>
      destruct (loadBurnerWallet_shape v) as [->|[->|(kp & due & ->)]] end.
    + simpl. split; [discriminate | intros [pk Hpk]; discriminate Hpk].
    + simpl. split; [discriminate | intros [pk Hpk]; discriminate Hpk].
    + simpl. split; [discriminate | intros [pk Hpk]; discriminate Hpk].
  - exact (step_connected_last w w' a Hs IH).
Qed.

End WalletExtras.

(** * The components around the wallet *)

Section ComponentProperties.
Import BurnerWallet Banner BurnerWalletComponent.
Context `{P : Platform}.

(** X6: the text of the banner. Over a record created at [c] the banner
    shows ["Expired"] from [c + 24h] on; before that it shows
    [hours ++ "h " ++ minutes ++ "m"] where [minutes] is below 60 and
    [hours] hours [minutes] minutes is the remaining time rounded down to
    the minute. Without a record it shows ["Expired"], and over a record
    whose date is unreadable it shows ["NaNh NaNm"]. *)
Theorem banner_text (w : world) (j : json) :
  localStorage w !! storageKey = Some (Doc j) -> j <> JNull ->
  (forall c, getTime (prop "createdAt" j) = Num c ->
     (c + EXPIRY_TIME <= now w -> updateTime w = Ok "Expired"%string) /\
     (now w < c + EXPIRY_TIME ->
      exists h m,
        updateTime w = Ok (pretty h ++ "h " ++ pretty m ++ "m")%string /\
        0 <= h /\ 0 <= m < 60 /\
        h * 3600000 + m * 60000 <= c + EXPIRY_TIME - now w
          < h * 3600000 + m * 60000 + 60000)) /\
  (getTime (prop "createdAt" j) = NaN -> updateTime w = Ok "NaNh NaNm"%string) /\
  (forall v, localStorage v !! storageKey = None -> updateTime v = Ok "Expired"%string).
Proof.
  intros Hst Hj.
  assert (Hrem : getTimeRemaining w =
                 Ok (Js.max (Num 0)
                       (Js.sub (Num EXPIRY_TIME)
                          (Js.sub (Num (now w)) (getTime (prop "createdAt" j)))))).
  { unfold getTimeRemaining. rewrite Hst. simpl. destruct j; try reflexivity.
    now elim Hj. }
  split; [|split].
  - intros c Hg. unfold updateTime. rewrite Hrem, Hg. simpl. split.
    + intros Hle. unfold formatTime.
      replace (Z.max 0 (EXPIRY_TIME - (now w - c)) <=? 0) with true
        by (symmetry; apply Z.leb_le; lia).
      reflexivity.
    + intros Hlt. unfold formatTime.
      replace (Z.max 0 (EXPIRY_TIME - (now w - c)) <=? 0) with false
        by (symmetry; apply Z.leb_gt; lia).
      rewrite Z.max_r by lia.
      set (r := EXPIRY_TIME - (now w - c)).
      exists (r / (60 * 60 * 1000)), (r mod (60 * 60 * 1000) / (60 * 1000)).
      split; [reflexivity|].
      assert (Hr : 0 < r) by (unfold r; lia).
      replace (c + EXPIRY_TIME - now w) with r by (unfold r; lia).
      change (60 * 60 * 1000) with 3600000. change (60 * 1000) with 60000.
      pose proof (Z.div_mod r 3600000 ltac:(lia)) as Hdm.
      pose proof (Z.mod_pos_bound r 3600000 ltac:(lia)) as Hmb.
      pose proof (Z.div_mod (r mod 3600000) 60000 ltac:(lia)) as Hdm2.
      pose proof (Z.mod_pos_bound (r mod 3600000) 60000 ltac:(lia)) as Hmb2.
      assert (0 <= r / 3600000) by (apply Z.div_pos; lia).
      assert (0 <= r mod 3600000 / 60000) by (apply Z.div_pos; lia).
      assert (r mod 3600000 / 60000 < 60)
        by (apply Z.div_lt_upper_bound; lia).
      lia.
  - intros Hg. unfold updateTime. rewrite Hrem, Hg. reflexivity.
  - intros v Hv. unfold updateTime, getTimeRemaining. rewrite Hv. reflexivity.
Qed.

(** X8: a wallet made by [createBurnerWallet] at time [t] round-trips
    through the storage, provided the platform reads back the key bytes and
    the date it wrote: the mount effect of the component shows its public
    key, and an adapter constructed within the next 24 hours holds that
    keypair, unconnected, with the purge timer due at [t + 24h]; [connect]
    then succeeds and announces the same public key. *)
Theorem created_wallet_round_trip (kp : Keypair) (username email : string)
    (t t' : Z) (st : gmap string item) (u : ui) :
  fromSecretKey (Some (JArr (map JNum (secretKeyBytes kp)))) = Some kp ->
  getTime (Some (JStr (toISOString t))) = Num t ->
  t <= t' < t + EXPIRY_TIME ->
  let st' := fst (fst (createBurnerWallet (Ok kp) username email t st u)) in
  let w := construct t' st' in
  mountEffect st' = Ok (Some (JStr (publicKey58 kp))) /\
  localStorage w = st' /\
  self w = {| _keypair := Some kp; _connecting := false; _connected := false;
              _disconnectTimer := Some (t + EXPIRY_TIME) |} /\
  emitted w = [] /\
  snd (connect w) = Ok tt /\
  _connected (self (fst (connect w))) = true /\
  emitted (fst (connect w)) = [EvConnect (publicKey58 kp)].
Proof.
  intros Hk Hg Ht st' w.
  assert (Hw : w = {| now := t'; localStorage := st';
                      self := {| _keypair := Some kp; _connecting := false;
                                 _connected := false;
                                 _disconnectTimer := Some (t + EXPIRY_TIME) |};
                      emitted := [] |}).
  { unfold w, construct.
    match goal with |- loadBurnerWallet ?v = _ =>
      rewrite (loadBurnerWallet_live v (walletData kp username email t) t kp) end.
    - reflexivity.
    - unfold st'. simpl. apply lookup_insert_eq.
    - discriminate.
    - exact Hg.
    - exact Hk.
    - exact Ht. }
  split.
  { unfold mountEffect, st'. simpl. rewrite lookup_insert_eq. reflexivity. }
  rewrite Hw. repeat split; reflexivity.
Qed.

End ComponentProperties.

Section WalletOptionsProperties.
Import WalletOptions.

(** X7: [detectWallet] reports a wallet only for the names ["Phantom"] and
    ["Solflare"], and then exactly what the injected [window] object says.
    It never reads the storage: the option of the burner wallet is named
    ["Burner Wallet"] and has no [detectObject], so the test on
    [localStorage] under the name ['Burner'] is never reached and no burner
    option is ever detected. *)
Theorem detectWallet_spec (n : string) (win : window) (st : gmap string item) :
  detectWallet n win st =
    (String.eqb n "Phantom" && solanaIsPhantom win)
    || (String.eqb n "Solflare" && solflareIsSolflare win) /\
  Forall (fun o => isBurner o = true -> detectWallet (name o) win st = false)
         walletOptions.
Proof.
  assert (H : forall m,
    detectWallet m win st =
      (String.eqb m "Phantom" && solanaIsPhantom win)
      || (String.eqb m "Solflare" && solflareIsSolflare win)).
  { intros m. unfold detectWallet, walletOptions. cbn [List.find name].
    rewrite (String.eqb_sym "Phantom" m), (String.eqb_sym "Solflare" m).
    destruct (String.eqb_spec m "Phantom") as [->|H1];
      [now destruct (solanaIsPhantom win)|].
    destruct (String.eqb_spec m "Solflare") as [->|H2];
      [now destruct (solflareIsSolflare win)|].
    rewrite (String.eqb_sym "Burner Wallet" m).
    destruct (String.eqb_spec m "Burner Wallet") as [->|H3]; reflexivity. }
  split; [apply H|].
  repeat (constructor; [cbn [isBurner name]; intros Hb; try discriminate Hb;
                        rewrite H; reflexivity|]).
  constructor.
Qed.

End WalletOptionsProperties.

(** * The caches and the price history of the portfolio service *)

Section PortfolioCacheProperties.
Import PortfolioCache.
Variable M S : Type.

(** X11: the two caches of the portfolio service. What [setCachedStats]
    stores under a key is what [getCachedStats] returns for that key during
    the next [STATS_CACHE_DURATION] (one minute) and no longer; the same for
    the metadata with [METADATA_CACHE_DURATION] (30 minutes). Other keys are
    not affected, and neither cache is affected by writes to the other. *)
Theorem portfolio_cache_round_trip (k k' : string) (m : M) (d : S) (dt : Z)
    (s : state M S) :
  getCachedStats k' (later dt (setCachedStats k d s)) =
    (if decide (k' = k)
     then if dt <? STATS_CACHE_DURATION then Some d else None
     else getCachedStats k' (later dt s)) /\
  getCachedMetadata k' (later dt (setCachedMetadata k m s)) =
    (if decide (k' = k)
     then if dt <? METADATA_CACHE_DURATION then Some m else None
     else getCachedMetadata k' (later dt s)) /\
  getCachedMetadata k' (later dt (setCachedStats k d s)) =
    getCachedMetadata k' (later dt s) /\
  getCachedStats k' (later dt (setCachedMetadata k m s)) =
    getCachedStats k' (later dt s).
Proof.
  unfold getCachedStats, getCachedMetadata, later, setCachedStats, setCachedMetadata.
  cbn [clock metadataCache statsCache].
  split; [|split; [|split; reflexivity]].
  - destruct (decide (k' = k)) as [->|Hk].
    + rewrite lookup_insert_eq. cbn [timestamp data].
      now replace (clock s + dt - clock s) with dt by lia.
    + now rewrite lookup_insert_ne by congruence.
  - destruct (decide (k' = k)) as [->|Hk].
    + rewrite lookup_insert_eq. cbn [timestamp data].
      now replace (clock s + dt - clock s) with dt by lia.
    + now rewrite lookup_insert_ne by congruence.
Qed.

End PortfolioCacheProperties.

Section PriceHistoryProperties.
Import PriceHistory.
Variable price : Type.
Variable differs : price -> price -> bool.
Variable finite : price -> bool.

Local Abbreviation entry := (entry price).
Local Abbreviation state := (state price).
Local Abbreviation updatePriceHistory := (updatePriceHistory price differs finite).
Local Abbreviation rawOf := (rawOf price finite).
Local Abbreviation filterRaw := (filterRaw price).

Lemma last_drop_lt {A : Type} (l : list A) (i : nat) :
  (i < length l)%nat -> last (drop i l) = last l.
Proof.
  revert i. induction l as [|x l IH]; intros i Hi; simpl in Hi; [lia|].
  destruct i as [|i]; [reflexivity|]. simpl drop.
  rewrite IH by lia. destruct l; [simpl in Hi; lia | reflexivity].
Qed.

Lemma filter_none {A : Type} (P : A -> Prop) `{forall x, Decision (P x)}
    (l : list A) :
  Forall (fun x => ~ P x) l -> filter P l = [].
Proof.
  induction 1 as [|x l Hx _ IH]; [reflexivity|].
  now rewrite filter_cons_False.
Qed.

Lemma last_lastN (l : list entry) :
  last (lastN PRICE_HISTORY_LIMIT l) = last l.
Proof.
  destruct l as [|x l]; [reflexivity|].
  unfold lastN. apply last_drop_lt. unfold PRICE_HISTORY_LIMIT. simpl. lia.
Qed.

Lemma length_lastN (n : nat) (l : list entry) : (length (lastN n l) <= n)%nat.
Proof. unfold lastN. rewrite length_drop. lia. Qed.

(** The history [updatePriceHistory] leaves in the map. *)
Lemma updatePriceHistory_lookup (writable : bool) (mint : string) (p : price)
    (s : state) :
  PRICE_HISTORY (updatePriceHistory writable mint p s) !! mint =
    Some (lastN PRICE_HISTORY_LIMIT
            (filter (fun e => clock s - DAY <= timestamp e)
               (match last (historyOf mint s) with
                | Some lastEntry =>
                    if differs (value lastEntry) p
                    then historyOf mint s ++ [{| value := p; timestamp := clock s |}]
                    else historyOf mint s
                | None => historyOf mint s ++ [{| value := p; timestamp := clock s |}]
                end))).
Proof.
  unfold PriceHistory.updatePriceHistory, persistPriceHistory.
  destruct writable; cbn [PRICE_HISTORY]; apply lookup_insert_eq.
Qed.

(** The history left in the map is recent, and it is what the storage
    holds after a write that succeeded. *)
Lemma updatePriceHistory_persisted (writable : bool) (mint : string) (p : price)
    (s : state) :
  exists h,
    PRICE_HISTORY (updatePriceHistory writable mint p s) !! mint = Some h /\
    Forall (fun e => clock s - DAY <= timestamp e) h /\
    localStorage (updatePriceHistory writable mint p s) =
      (if writable
       then <[(STORAGE_KEY_PREFIX ++ mint)%string := Entries (map rawOf h)]>
              (localStorage s)
       else localStorage s) /\
    clock (updatePriceHistory writable mint p s) = clock s.
Proof.
  eexists. split; [apply updatePriceHistory_lookup|]. split.
  { unfold lastN. apply Forall_drop, Forall_forall. intros e He.
    apply list_elem_of_filter in He. tauto. }
  unfold PriceHistory.updatePriceHistory, persistPriceHistory.
  destruct writable; cbn [PRICE_HISTORY localStorage clock]; split; reflexivity.
Qed.

(** X12: what [updatePriceHistory] leaves behind. The history of the mint
    has at most [PRICE_HISTORY_LIMIT] (24) entries, none older than 24
    hours; the storage slot of the mint holds exactly that history when
    the write succeeds, and the storage is unchanged when it fails; the
    histories of other mints, the other storage slots and the clock are
    untouched. *)
Theorem updatePriceHistory_bounds (writable : bool) (mint : string) (p : price)
    (s : state) :
  exists h,
    PRICE_HISTORY (updatePriceHistory writable mint p s) !! mint = Some h /\
    (length h <= PRICE_HISTORY_LIMIT)%nat /\
    Forall (fun e => clock s - DAY <= timestamp e) h /\
    localStorage (updatePriceHistory writable mint p s) =
      (if writable
       then <[(STORAGE_KEY_PREFIX ++ mint)%string := Entries (map rawOf h)]>
              (localStorage s)
       else localStorage s) /\
    (forall m, m <> mint ->
       PRICE_HISTORY (updatePriceHistory writable mint p s) !! m
       = PRICE_HISTORY s !! m) /\
    clock (updatePriceHistory writable mint p s) = clock s.
Proof.
  destruct (updatePriceHistory_persisted writable mint p s)
    as (h & Hh & Hrecent & Hst & Hclock).
  exists h. split; [exact Hh|]. split.
  { rewrite updatePriceHistory_lookup in Hh. injection Hh as <-.
    apply length_lastN. }
  split; [exact Hrecent|]. split; [exact Hst|]. split; [|exact Hclock].
  intros m Hm. unfold PriceHistory.updatePriceHistory, persistPriceHistory.
  destruct writable; cbn [PRICE_HISTORY]; now apply lookup_insert_ne.
Qed.

(** X13: what [updatePriceHistory] records, [h0] being the history it
    starts from and [h] the one it leaves. When [h0] is empty or ends with a
    different price, [h] ends with the new price at the current time. When
    [h0] ends with the same price, no entry is added: [h] still ends with
    that older entry while it is less than 24 hours old, and once it is
    older (it being the newest) [h] is empty, so a price that has not moved
    for a day leaves no history at all. *)
Theorem updatePriceHistory_records (writable : bool) (mint : string) (p : price)
    (s : state) (h : list entry) :
  PRICE_HISTORY (updatePriceHistory writable mint p s) !! mint = Some h ->
  (last (historyOf mint s) = None ->
   last h = Some {| value := p; timestamp := clock s |}) /\
  (forall e, last (historyOf mint s) = Some e ->
     (differs (value e) p = true ->
      last h = Some {| value := p; timestamp := clock s |}) /\
     (differs (value e) p = false -> clock s - DAY <= timestamp e ->
      last h = Some e) /\
     (differs (value e) p = false -> timestamp e < clock s - DAY ->
      Forall (fun x => timestamp x <= timestamp e) (historyOf mint s) ->
      h = [])).
Proof.
  rewrite updatePriceHistory_lookup. intros Hh.
  injection Hh as <-.
  assert (Hpush : forall l,
    last (lastN PRICE_HISTORY_LIMIT
            (filter (fun e => clock s - DAY <= timestamp e)
               (l ++ [{| value := p; timestamp := clock s |}])))
    = Some {| value := p; timestamp := clock s |}).
  { intros l. rewrite last_lastN, filter_app.
    rewrite (filter_cons_True _ _ []) by (unfold DAY; simpl; lia).
    apply last_snoc. }
  split.
  - intros ->. apply Hpush.
  - intros e He. rewrite He. split; [|split].
    + intros ->. apply Hpush.
    + intros -> Hrecent. rewrite last_lastN.
      apply last_Some in He as [l' ->]. rewrite filter_app.
      rewrite (filter_cons_True _ _ []) by exact Hrecent.
      apply last_snoc.
    + intros -> Hold Hnewest.
      rewrite (filter_none (fun e0 => clock s - DAY <= timestamp e0)); [reflexivity|].
      eapply Forall_impl; [exact Hnewest|]. intros x Hx. simpl in Hx. lia.
Qed.

Lemma filterRaw_recent (cutoff : Z) (l : list (raw price)) (h : list entry) :
  filterRaw cutoff l = Some h -> Forall (fun e => cutoff <= timestamp e) h.
Proof.
  revert h. induction l as [|r l IH]; intros h Hh; simpl in Hh.
  - injection Hh as <-. constructor.
  - destruct (keep price cutoff r) as [kept|] eqn:Hk; [|discriminate].
    destruct (filterRaw cutoff l) as [tail|]; [|discriminate].
    injection Hh as <-. specialize (IH tail eq_refl).
    destruct kept as [e|]; [|exact IH]. constructor; [|exact IH].
    destruct r as [|[p0|] [t0|]]; simpl in Hk; try discriminate.
    destruct (cutoff <=? t0) eqn:Hc; [|discriminate].
    injection Hk as <-. simpl. now apply Z.leb_le.
Qed.

Lemma filterRaw_null (cutoff : Z) (l : list (raw price)) :
  RNull ∈ l -> filterRaw cutoff l = None.
Proof.
  induction l as [|r l IH]; intros Hin; [now apply elem_of_nil in Hin|].
  apply elem_of_cons in Hin as [<-|Hin]; [reflexivity|].
  simpl. destruct (keep price cutoff r); [|reflexivity].
  now rewrite (IH Hin).
Qed.

Lemma filterRaw_rawOf (cutoff : Z) (h : list entry) :
  filterRaw cutoff (map rawOf h) =
    Some (filter (fun e => finite (value e) = true /\ cutoff <= timestamp e) h).
Proof.
  induction h as [|e h IH]; [reflexivity|].
  cbn [map PriceHistory.filterRaw]. rewrite IH.
  unfold PriceHistory.rawOf, keep.
  destruct (finite (value e)) eqn:Hf.
  - destruct (cutoff <=? timestamp e) eqn:Hc.
    + apply Z.leb_le in Hc. rewrite filter_cons_True by (split; [exact Hf | exact Hc]).
      destruct e; reflexivity.
    + apply Z.leb_gt in Hc. rewrite filter_cons_False by (intros [_ H]; lia).
      reflexivity.
  - rewrite filter_cons_False by (intros [H _]; rewrite Hf in H; discriminate).
    reflexivity.
Qed.

(** X14: [loadPersistedPriceHistory] sanitises what it reads. Whatever the
    storage holds, the history it returns has no entry older than 24 hours;
    it is empty when the slot is missing, is not JSON, is not an array, or
    is an array with a [null] element (one bad element discards the whole
    history, because the exception leaves the filter). *)
Theorem loadPersistedPriceHistory_sanitises (mint : string) (s : state) :
  Forall (fun e => clock s - DAY <= timestamp e)
         (loadPersistedPriceHistory mint s) /\
  (match localStorage s !! (STORAGE_KEY_PREFIX ++ mint)%string with
   | Some (Entries l) =>
       (RNull ∈ l -> loadPersistedPriceHistory mint s = []) /\
       (length (loadPersistedPriceHistory mint s) <= length l)%nat
   | _ => loadPersistedPriceHistory mint s = []
   end).
Proof.
  unfold loadPersistedPriceHistory.
  destruct (localStorage s !! (STORAGE_KEY_PREFIX ++ mint)%string) as [[| |l]|];
    try (split; [constructor | reflexivity]).
  split; [|split].
  - destruct (filterRaw (clock s - DAY) l) as [h|] eqn:Hh; [|constructor].
    exact (filterRaw_recent _ _ _ Hh).
  - intros Hn. now rewrite filterRaw_null.
  - generalize (clock s - DAY). intros cutoff.
    induction l as [|r l IH]; [simpl; lia|].
    simpl. destruct (keep price cutoff r) as [kept|]; [|simpl; lia].
    destruct (filterRaw cutoff l) as [tail|]; [|simpl; lia].
    destruct kept; simpl in *; lia.
Qed.

(** X15: the history survives a reload of the page. After an
    [updatePriceHistory] whose write succeeded, a fresh module (empty map,
    same storage) that reads the slot [dt] ms later gets back the entries of
    the history that have a finite price and are then less than 24 hours
    old; read at once, a history of finite prices comes back whole, so the
    next update continues from it. *)
Theorem price_history_survives_reload (mint : string) (p : price) (s : state)
    (dt : Z) :
  exists h,
    PRICE_HISTORY (updatePriceHistory true mint p s) !! mint = Some h /\
    historyOf mint (later dt (reloaded (updatePriceHistory true mint p s))) =
      filter (fun e => finite (value e) = true /\ clock s + dt - DAY <= timestamp e) h /\
    (Forall (fun e => finite (value e) = true) h ->
     historyOf mint (reloaded (updatePriceHistory true mint p s)) = h).
Proof.
  destruct (updatePriceHistory_persisted true mint p s)
    as (h & Hh & Hrecent & Hst & Hclock).
  exists h. split; [exact Hh|].
  assert (Hload : forall c : state,
    localStorage c = localStorage (updatePriceHistory true mint p s) ->
    PRICE_HISTORY c = ∅ ->
    historyOf mint c =
      filter (fun e => finite (value e) = true /\ clock c - DAY <= timestamp e) h).
  { intros c Hc Hempty. unfold historyOf, loadPersistedPriceHistory.
    rewrite Hempty, lookup_empty, Hc, Hst, lookup_insert_eq.
    now rewrite filterRaw_rawOf. }
  split.
  - rewrite (Hload (later dt (reloaded (updatePriceHistory true mint p s))))
      by reflexivity.
    cbn [later reloaded clock]. now rewrite Hclock.
  - intros Hfin.
    rewrite (Hload (reloaded (updatePriceHistory true mint p s))) by reflexivity.
    cbn [reloaded clock]. rewrite Hclock.
    clear -Hrecent Hfin. induction h as [|e h IH]; [reflexivity|].
    inversion Hrecent; inversion Hfin; subst.
    rewrite filter_cons_True by (split; assumption).
    f_equal. now apply IH.
Qed.

End PriceHistoryProperties.

(** * The further properties on the cases *)

Section FurtherExamples.
Import Demo Cases.

Lemma adapter_only_removes_its_record_witness :
  BurnerWallet.run due purgedThenConnect
  = Some (fst (BurnerWallet.connect (BurnerWallet.clearWallet due))) /\
  BurnerWallet.undisturbed purgedThenConnect /\
  BurnerWallet.localStorage (fst (BurnerWallet.connect (BurnerWallet.clearWallet due)))
    !! BurnerWallet.storageKey = None.
Proof.
  assert (Hrun : BurnerWallet.run due purgedThenConnect
                 = Some (fst (BurnerWallet.connect (BurnerWallet.clearWallet due))))
    by reflexivity.
  assert (Hl : BurnerWallet.undisturbed purgedThenConnect)
    by (repeat constructor; intros; discriminate).
  split; [exact Hrun|]. split; [exact Hl|].
  destruct (adapter_only_removes_its_record purgedThenConnect due _ Hrun Hl)
    as (_ & [H|H] & _); [|exact H].
  reflexivity.
Defined.

(** The page stores a second wallet while the adapter is connected with
    the first; at the next visibility change the adapter holds the second
    key, still connected, and the only event so far announced the first. *)
Lemma reload_takes_stored_key_witness :
  BurnerWallet._connected (BurnerWallet.self overwritten) = true /\
  BurnerWallet._keypair (BurnerWallet.self overwritten) = Some key /\
  BurnerWallet._keypair (BurnerWallet.self (BurnerWallet.loadBurnerWallet overwritten))
    = Some key2 /\
  BurnerWallet._connected (BurnerWallet.self (BurnerWallet.loadBurnerWallet overwritten))
    = true /\
  BurnerWallet.emitted (BurnerWallet.loadBurnerWallet overwritten)
    = [BurnerWallet.EvConnect (publicKey58 key)].
Proof.
  assert (Hst : BurnerWallet.localStorage overwritten !! BurnerWallet.storageKey
                = Some (Doc record1)) by reflexivity.
  assert (Hj : record1 <> JNull) by discriminate.
  assert (Hg : getTime (prop "createdAt" record1) = Num 1000)
    by (vm_compute; reflexivity).
  assert (Hk : fromSecretKey (prop "secretKey" record1) = Some key2)
    by (vm_compute; reflexivity).
  assert (Hc : 1000 <= BurnerWallet.now overwritten < 1000 + BurnerWallet.EXPIRY_TIME)
    by (vm_compute; split; [discriminate | reflexivity]).
  destruct (reload_takes_stored_key overwritten record1 1000 key2 Hst Hj Hg Hk Hc)
    as [-> _].
  repeat split; vm_compute; reflexivity.
Defined.

Lemma connected_iff_last_event_is_connect_witness :
  BurnerWallet.reachable connected /\
  exists pk, last (BurnerWallet.emitted connected) = Some (BurnerWallet.EvConnect pk).
Proof.
  assert (Hr : BurnerWallet.reachable connected)
    by (apply (BurnerWallet.reachable_step fresh BurnerWallet.CallConnect);
        [apply BurnerWallet.reachable_construct | reflexivity]).
  split; [exact Hr|].
  apply (proj1 (connected_iff_last_event_is_connect connected Hr)).
  vm_compute. reflexivity.
Defined.

(** The banner 23 hours after creation: one hour left. *)
Lemma banner_text_witness :
  BurnerWallet.localStorage young !! BurnerWallet.storageKey = Some (Doc record0) /\
  exists h m : Z,
    Banner.updateTime young = Ok (pretty h ++ "h " ++ pretty m ++ "m")%string /\
    0 <= m < 60.
Proof.
  assert (Hst : BurnerWallet.localStorage young !! BurnerWallet.storageKey
                = Some (Doc record0)) by reflexivity.
  split; [exact Hst|].
  assert (Hj : record0 <> JNull) by discriminate.
  destruct (banner_text young record0 Hst Hj) as (H & _ & _).
  destruct (H 0) as (_ & Hlt); [vm_compute; reflexivity|].
  destruct Hlt as (h & m & Hu & _ & Hm & _); [vm_compute; reflexivity|].
  exists h, m. split; [exact Hu | exact Hm].
Defined.

(** The wallet created at time 0 and an adapter constructed an hour later. *)
Lemma created_wallet_round_trip_witness :
  let st' := fst (fst (BurnerWallet.createBurnerWallet (Ok key) "ann" "ann@example.org"
                         0 ∅ closedForm)) in
  BurnerWalletComponent.mountEffect st' = Ok (Some (JStr (publicKey58 key))) /\
  BurnerWallet._keypair (BurnerWallet.self (BurnerWallet.construct 3600000 st'))
    = Some key /\
  BurnerWallet.emitted (fst (BurnerWallet.connect (BurnerWallet.construct 3600000 st')))
    = [BurnerWallet.EvConnect (publicKey58 key)].
Proof.
  intros st'.
  assert (Hk : fromSecretKey (Some (JArr (map JNum (secretKeyBytes key)))) = Some key)
    by (vm_compute; reflexivity).
  assert (Hg : getTime (Some (JStr (toISOString 0))) = Num 0)
    by (vm_compute; reflexivity).
  assert (Ht : 0 <= 3600000 < 0 + BurnerWallet.EXPIRY_TIME)
    by (vm_compute; split; [discriminate | reflexivity]).
  destruct (created_wallet_round_trip (P := platform) key "ann" "ann@example.org" 0 3600000 ∅
              closedForm Hk Hg Ht) as (Hm & _ & Hs & _ & _ & _ & He).
  split; [exact Hm|]. split; [|exact He].
  exact (f_equal BurnerWallet._keypair Hs).
Defined.

Lemma fetchWithRetry_returns_within_window_witness :
  Portfolio.windowOk 30 idle /\
  exists r s',
    Portfolio.fetchWithRetry 30 late 3 flaky Portfolio.MAX_RETRIES
      Portfolio.BASE_DELAY idle = Some (r, s') /\
    Portfolio.windowOk 30 s' /\ (Portfolio.attempts s' <= 3)%nat.
Proof.
  split; [exact idle_windowOk|].
  destruct (fetchWithRetry_returns_within_window 30 late Z ltac:(lia) late_due
              late_later 3 flaky Portfolio.MAX_RETRIES Portfolio.BASE_DELAY idle
              2 10 7 ltac:(lia) idle_windowOk)
    as (r & s' & Hr & Hok & _ & Ha & _).
  - repeat constructor; simpl; lia.
  - reflexivity.
  - exists r, s'. split; [exact Hr|]. split; [exact Hok|]. simpl in Ha. lia.
Defined.

Lemma fetchWithRetry_backoff_schedule_witness :
  exists r s',
    Portfolio.fetchWithRetry 30 late 3 failing Portfolio.MAX_RETRIES
      Portfolio.BASE_DELAY idle = Some (r, s') /\
    Portfolio.backoffs s' =
      map (Runs.retryBackoff Portfolio.BASE_DELAY)
          (seq 0 (Portfolio.attempts s' - 0 - 1)).
Proof.
  destruct (fetchWithRetry_backoff_schedule 30 late Z ltac:(lia) late_due
              late_later 3 failing Portfolio.MAX_RETRIES Portfolio.BASE_DELAY idle
              ltac:(lia) ltac:(unfold Portfolio.BASE_DELAY; lia) idle_windowOk)
    as (r & s' & Hr & Hb & _).
  - repeat constructor; simpl; try lia; intros e He; injection He as <-;
      reflexivity.
  - vm_compute. discriminate.
  - exists r, s'. split; [exact Hr | exact Hb].
Defined.

(** The price has moved: the new price is recorded last. *)
Lemma updatePriceHistory_records_witness :
  exists h,
    PriceHistory.PRICE_HISTORY
      (PriceHistory.updatePriceHistory Z differs finite true
         "So11111111111111111111111111111111111111112" 15100 ticker)
      !! "So11111111111111111111111111111111111111112"%string = Some h /\
    last h = Some {| PriceHistory.value := 15100; PriceHistory.timestamp := 90000000 |}.
Proof.
  destruct (updatePriceHistory_persisted Z differs finite true
              "So11111111111111111111111111111111111111112" 15100 ticker)
    as (h & Hh & _).
  exists h. split; [exact Hh|].
  destruct (updatePriceHistory_records Z differs finite true
              "So11111111111111111111111111111111111111112" 15100 ticker h Hh)
    as (_ & H).
  destruct (H {| PriceHistory.value := 15000; PriceHistory.timestamp := 82800000 |})
    as (Hd & _); [reflexivity|].
  apply Hd. reflexivity.
Defined.

Lemma fetchWithCORS_always_returns_witness :
  exists r s' more,
    CoinGecko.fetchWithCORS late priceUrl (Some "sol_price"%string)
      CoinGecko.PRICE_CACHE_DURATION outage stale = Some (r, s') /\
    CoinGecko.fetched s' = more /\ (length more <= 12)%nat.
Proof.
  destruct (fetchWithCORS_always_returns late priceUrl (Some "sol_price"%string)
              CoinGecko.PRICE_CACHE_DURATION outage stale)
    as (r & s' & more & Hr & Hf & Hm & _); [simpl; lia|].
  exists r, s', more. split; [exact Hr|]. split; [exact Hf | exact Hm].
Defined.

Lemma fetchWithCORS_backoff_schedule_witness :
  exists r s' k,
    CoinGecko.fetchWithCORS late priceUrl (Some "sol_price"%string)
      CoinGecko.PRICE_CACHE_DURATION outage saturated = Some (r, s') /\
    CoinGecko.waited s' = map Runs.corsBackoff (seq 0 k) /\
    Runs.total (CoinGecko.waited s') <= 351000.
Proof.
  destruct (fetchWithCORS_backoff_schedule late priceUrl (Some "sol_price"%string)
              CoinGecko.PRICE_CACHE_DURATION outage saturated)
    as (r & s' & k & Hr & _ & Hw & _ & Ht); [simpl; lia|].
  exists r, s', k. split; [exact Hr|]. split; [exact Hw|].
  rewrite Hw. exact Ht.
Defined.

Lemma fetchWithCORS_fills_cache_witness :
  exists r s',
    CoinGecko.fetchWithCORS late priceUrl (Some "sol_price"%string)
      CoinGecko.PRICE_CACHE_DURATION answered stale = Some (r, s') /\
    forall k, k <> "sol_price"%string ->
      CoinGecko.apiCache s' !! k = CoinGecko.apiCache stale !! k.
Proof.
  destruct (fetchWithCORS_fills_cache late priceUrl (Some "sol_price"%string)
              CoinGecko.PRICE_CACHE_DURATION answered stale)
    as (r & s' & Hr & Hk & _);
    [simpl; lia | unfold CoinGecko.PRICE_CACHE_DURATION; lia |].
  exists r, s'. split; [exact Hr|]. intros k Hne. apply Hk.
  simpl. congruence.
Defined.

(** Thirty-five calls one second apart, the counter being at 1: the first
    29 are let through. *)
Lemma checkRateLimit_window_witness :
  fst (Runs.checks burst warm) = repeat true 29 ++ repeat false 6.
Proof.
  destruct (checkRateLimit_window burst warm) as (H & _).
  - unfold burst. simpl. repeat (constructor; [lia|]). constructor.
  - vm_compute. reflexivity.
  - rewrite H. vm_compute. reflexivity.
Defined.

End FurtherExamples.
